(** * The x402 streaming client of [src/index.ts]

    A shallow embedding of the payment-gated WebSocket client: the JSON
    values it receives, its type guards, the transaction summarizers, the
    schema and renewal requests, and the two socket handlers ([open] and
    [message]).

    Conventions.
    - A JavaScript value is a [value]; a missing property reads as
      [VUndefined], as in JavaScript.
    - An [async] function is a [proc]: a finite tree of synchronous effects
      (log calls, [ws.send], reads and writes of the [currentToken] variable
      of [main]) and of [await]s, each of which hands control back to the
      event loop until the awaited promise settles.
    - Code of the platform and of the x402 libraries (the URL parser,
      [getPaymentRequiredResponse]) is a member of the class [Platform];
      [fetch], the payment-wrapping fetch, [resp.json()], the signer and
      timers are awaited operations whose outcome the environment chooses. *)

From Stdlib Require Import String Ascii List ZArith Bool Arith Lia DecimalString.
Import ListNotations.
Local Open Scope string_scope.
Local Open Scope list_scope.

Set Implicit Arguments.
Set Warnings "-register-all".

(** ** JavaScript values *)

(** An IEEE double: [Finite m e] is [m * 2^e].  No code below compares or
    computes with numbers other than lengths. *)
Inductive number : Type :=
| Finite (m e : Z)
| Infinity (negative : bool)
| NaN.

Definition number_of_nat (n : nat) : number := Finite (Z.of_nat n) 0.

Inductive value : Type :=
| VUndefined
| VNull
| VBool (b : bool)
| VNumber (n : number)
| VString (s : string)
| VArray (items : list value)
| VObject (fields : list (string * value)).

(** Own-property lookup.  The keys of a parsed object are distinct, so taking
    the first binding is the object's value for the key. *)
Fixpoint lookup (key : string) (fields : list (string * value)) : option value :=
  match fields with
  | [] => None
  | (k, v) :: rest => if String.eqb k key then Some v else lookup key rest
  end.

(** [record.key]: a missing property is [undefined]. *)
Definition prop (fields : list (string * value)) (key : string) : value :=
  match lookup key fields with
  | Some v => v
  | None => VUndefined
  end.

(** [key in record] *)
Definition has_property (key : string) (fields : list (string * value)) : bool :=
  match lookup key fields with
  | Some _ => true
  | None => false
  end.

(** [v === 'literal'] *)
Definition is_string_literal (v : value) (literal : string) : bool :=
  match v with
  | VString s => String.eqb s literal
  | _ => false
  end.

(** [typeof v === 'string'] *)
Definition typeof_string (v : value) : bool :=
  match v with VString _ => true | _ => false end.

(** [typeof v === 'number'] *)
Definition typeof_number (v : value) : bool :=
  match v with VNumber _ => true | _ => false end.

(** [Array.isArray(v)] *)
Definition Array_isArray (v : value) : bool :=
  match v with VArray _ => true | _ => false end.

(** [Number.isFinite] on a number *)
Definition Number_isFinite (n : number) : bool :=
  match n with Finite _ _ => true | _ => false end.

(** ** Parsing utilities (index.ts 281-341) *)

(** An inbound frame is represented by what [JSON.parse] makes of its text:
    a value, or a [SyntaxError]. *)
Inductive frame : Type :=
| JsonText (parsed : value)
| NotJson.

Definition safeJsonParse (raw : frame) : value :=
  match raw with
  | JsonText v => v
  | NotJson => VUndefined
  end.

(** [isRecord]: an object that is neither [null] nor an array.  The guards
    below go through [as_record], which also hands out the fields. *)
Definition as_record (v : value) : option (list (string * value)) :=
  match v with
  | VObject fields => Some fields
  | _ => None
  end.

Definition isRecord (v : value) : bool :=
  match as_record v with Some _ => true | None => false end.

Inductive RenewMethod : Type := http | inband.
Inductive X402SchemaVersion : Type := v1 | v2.
Inductive EventFormat : Type := raw | enhanced.
Inductive TxLogMode : Type := summary | full.
Inductive CommitmentLabel : Type := processed | confirmed.

Definition parseRenewMethod (v : option string) : RenewMethod :=
  match v with
  | Some s => if String.eqb s "inband" then inband else http
  | None => http
  end.

Definition version_text (v : X402SchemaVersion) : string :=
  match v with v1 => "v1" | v2 => "v2" end.

Definition format_text (f : EventFormat) : string :=
  match f with raw => "raw" | enhanced => "enhanced" end.

Definition commitment_text (c : CommitmentLabel) : string :=
  match c with processed => "processed" | confirmed => "confirmed" end.

(** ** Type guards (index.ts 347-436) *)

Definition isWsStatusEvent (v : value) : bool :=
  match as_record v with
  | None => false
  | Some r => is_string_literal (prop r "type") "status" && typeof_string (prop r "now")
  end.

Definition isWsTransactionEvent (v : value) : bool :=
  match as_record v with
  | None => false
  | Some r =>
      is_string_literal (prop r "type") "transaction" && typeof_string (prop r "signature")
  end.

Definition isWsAccountEvent (v : value) : bool :=
  match as_record v with
  | None => false
  | Some r => is_string_literal (prop r "type") "account" && typeof_string (prop r "pubkey")
  end.

Definition isWsSlotEvent (v : value) : bool :=
  match as_record v with
  | None => false
  | Some r => is_string_literal (prop r "type") "slot" && typeof_number (prop r "slot")
  end.

Definition isWsTickerEvent (v : value) : bool :=
  match as_record v with
  | None => false
  | Some r => is_string_literal (prop r "type") "ticker" && typeof_string (prop r "baseMint")
  end.

Definition isWsLeaderboardEvent (v : value) : bool :=
  match as_record v with
  | None => false
  | Some r => is_string_literal (prop r "type") "leaderboard" && Array_isArray (prop r "items")
  end.

(** ['nativeTransfers' in value], on a value the transaction guard accepted *)
Definition isEnhancedTransactionEvent (v : value) : bool :=
  match as_record v with
  | None => false
  | Some r => has_property "nativeTransfers" r
  end.

Definition x402_ops : list string :=
  ["hello"; "renewal_reminder"; "payment_required"; "renewed"; "error"].

Definition includes (l : list string) (s : string) : bool :=
  existsb (String.eqb s) l.

Definition isWsX402Event (v : value) : bool :=
  match as_record v with
  | None => false
  | Some r =>
      match prop r "op" with
      | VString op => includes x402_ops op
      | _ => false
      end
  end.

Definition isRenewResponse (v : value) : bool :=
  match as_record v with
  | None => false
  | Some r =>
      typeof_string (prop r "token") && typeof_string (prop r "expiresAt")
      && typeof_number (prop r "sliceSeconds")
  end.

Definition isString (v : value) : bool := typeof_string v.

Definition isNumber (v : value) : bool :=
  match v with
  | VNumber n => Number_isFinite n
  | _ => false
  end.

Definition isWs402StreamSchema (v : value) : bool :=
  match as_record v with
  | None => false
  | Some r =>
      if negb (is_string_literal (prop r "protocol") "ws402") then false
      else if negb (is_string_literal (prop r "version") "1") then false
      else if negb (isString (prop r "websocketEndpoint")) then false
      else
        match as_record (prop r "pricing"), as_record (prop r "paymentDetails") with
        | Some pricing, Some details =>
            if negb (isNumber (prop pricing "pricePerSecond"))
               || negb (isString (prop pricing "currency"))
               || negb (isNumber (prop pricing "estimatedDuration"))
            then false
            else if negb (is_string_literal (prop details "scheme") "exact")
                    || negb (isString (prop details "network"))
                    || negb (isString (prop details "asset"))
                    || negb (isString (prop details "payTo"))
                    || negb (isString (prop details "maxAmountRequired"))
                    || negb (isNumber (prop details "maxTimeoutSeconds"))
            then false
            else
              match as_record (prop r "stream") with
              | None => false
              | Some stream =>
                  isString (prop stream "id") && isString (prop stream "title")
                  && isString (prop stream "description")
              end
        | _, _ => false
        end
  end.

Definition isPaymentRequired (v : value) : bool :=
  match as_record v with
  | None => false
  | Some r =>
      match prop r "accepts" with
      | VArray accepts => Nat.ltb 0 (List.length accepts)
      | _ => false
      end
  end.

(** ** Declared event types (index.ts 69-147)

    The transaction guard only looks at [type] and [signature]; the
    summarizers are written against the declared types below.  [decode]
    says when a parsed record inhabits a declared type (further properties
    are allowed, as in TypeScript); what the client does with a payload
    that passes the guard without inhabiting the type is outside the
    declared types and is not given a meaning here. *)

Notation "x <- e ;; k" := (match e with Some x => k | None => None end)
  (at level 61, e at next level, right associativity, only parsing).

Definition get_string (r : list (string * value)) (key : string) : option string :=
  match lookup key r with Some (VString s) => Some s | _ => None end.

Definition get_number (r : list (string * value)) (key : string) : option number :=
  match lookup key r with Some (VNumber n) => Some n | _ => None end.

Definition get_boolean (r : list (string * value)) (key : string) : option bool :=
  match lookup key r with Some (VBool b) => Some b | _ => None end.

Fixpoint decode_all (A : Type) (f : value -> option A) (l : list value) : option (list A) :=
  match l with
  | [] => Some []
  | v :: rest => a <- f v ;; t <- decode_all f rest ;; Some (a :: t)
  end.

Definition get_array (A : Type) (f : value -> option A) (r : list (string * value))
  (key : string) : option (list A) :=
  match lookup key r with Some (VArray l) => decode_all f l | _ => None end.

(** A property declared with [?]: absent, or of the declared type. *)
Definition get_optional (A : Type) (get : list (string * value) -> string -> option A)
  (r : list (string * value)) (key : string) : option (option A) :=
  match lookup key r with
  | None => Some None
  | Some _ => a <- get r key ;; Some (Some a)
  end.

Definition decode_string (v : value) : option string :=
  match v with VString s => Some s | _ => None end.

Definition decode_commitment (r : list (string * value)) (key : string)
  : option CommitmentLabel :=
  s <- get_string r key ;;
  if String.eqb s "processed" then Some processed
  else if String.eqb s "confirmed" then Some confirmed
  else None.

(** [object | null] *)
Definition get_object_or_null (r : list (string * value)) (key : string) : option value :=
  match lookup key r with
  | Some VNull => Some VNull
  | Some (VObject f) => Some (VObject f)
  | Some (VArray l) => Some (VArray l)
  | _ => None
  end.

(** [number | null] *)
Definition get_number_or_null (r : list (string * value)) (key : string)
  : option (option number) :=
  match lookup key r with
  | Some VNull => Some None
  | Some (VNumber n) => Some (Some n)
  | _ => None
  end.

Module NativeTransfer.
Record t : Type := {
  fromUserAccount : string;
  toUserAccount : string;
  amount : number
}.
Definition decode (v : value) : option t :=
  r <- as_record v ;;
  f <- get_string r "fromUserAccount" ;;
  u <- get_string r "toUserAccount" ;;
  a <- get_number r "amount" ;;
  Some {| fromUserAccount := f; toUserAccount := u; amount := a |}.
End NativeTransfer.

Module TokenTransfer.
Record t : Type := {
  fromTokenAccount : string;
  toTokenAccount : string;
  fromUserAccount : string;
  toUserAccount : string;
  tokenAmount : number;
  mint : string;
  tokenStandard : string
}.
Definition decode (v : value) : option t :=
  r <- as_record v ;;
  a <- get_string r "fromTokenAccount" ;;
  b <- get_string r "toTokenAccount" ;;
  c <- get_string r "fromUserAccount" ;;
  d <- get_string r "toUserAccount" ;;
  n <- get_number r "tokenAmount" ;;
  m <- get_string r "mint" ;;
  s <- get_string r "tokenStandard" ;;
  Some {| fromTokenAccount := a; toTokenAccount := b; fromUserAccount := c;
          toUserAccount := d; tokenAmount := n; mint := m; tokenStandard := s |}.
End TokenTransfer.

Module RawTokenAmount.
Record t : Type := {
  tokenAmount : string;
  decimals : number
}.
Definition decode (v : value) : option t :=
  r <- as_record v ;;
  a <- get_string r "tokenAmount" ;;
  d <- get_number r "decimals" ;;
  Some {| tokenAmount := a; decimals := d |}.
End RawTokenAmount.

Module TokenBalanceChange.
Record t : Type := {
  userAccount : string;
  tokenAccount : string;
  rawTokenAmount : RawTokenAmount.t;
  mint : string
}.
Definition decode (v : value) : option t :=
  r <- as_record v ;;
  u <- get_string r "userAccount" ;;
  a <- get_string r "tokenAccount" ;;
  raw <- lookup "rawTokenAmount" r ;;
  amount <- RawTokenAmount.decode raw ;;
  m <- get_string r "mint" ;;
  Some {| userAccount := u; tokenAccount := a; rawTokenAmount := amount; mint := m |}.
End TokenBalanceChange.

Module AccountData.
Record t : Type := {
  account : string;
  nativeBalanceChange : number;
  tokenBalanceChanges : list TokenBalanceChange.t
}.
Definition decode (v : value) : option t :=
  r <- as_record v ;;
  a <- get_string r "account" ;;
  n <- get_number r "nativeBalanceChange" ;;
  c <- get_array TokenBalanceChange.decode r "tokenBalanceChanges" ;;
  Some {| account := a; nativeBalanceChange := n; tokenBalanceChanges := c |}.
End AccountData.

Module YellowstoneTokenBalanceChange.
Record t : Type := {
  account : string;
  mint : string;
  owner : option string;
  decimals : number;
  preAmount : string;
  preAmountUi : string;
  postAmount : string;
  postAmountUi : string;
  delta : string;
  deltaUi : string
}.
Definition decode (v : value) : option t :=
  r <- as_record v ;;
  a <- get_string r "account" ;;
  m <- get_string r "mint" ;;
  o <- get_optional get_string r "owner" ;;
  d <- get_number r "decimals" ;;
  p1 <- get_string r "preAmount" ;;
  p2 <- get_string r "preAmountUi" ;;
  p3 <- get_string r "postAmount" ;;
  p4 <- get_string r "postAmountUi" ;;
  d1 <- get_string r "delta" ;;
  d2 <- get_string r "deltaUi" ;;
  Some {| account := a; mint := m; owner := o; decimals := d; preAmount := p1;
          preAmountUi := p2; postAmount := p3; postAmountUi := p4;
          delta := d1; deltaUi := d2 |}.
End YellowstoneTokenBalanceChange.

Module EnhancedTransactionEvent.
Record t : Type := {
  commitment : CommitmentLabel;
  slot : number;
  signature : string;
  timestamp : option number;
  isVote : bool;
  index : number;
  err : value;
  fee : number;
  feePayer : string;
  accounts : option (list string);
  nativeTransfers : list NativeTransfer.t;
  tokenTransfers : list TokenTransfer.t;
  accountData : list AccountData.t;
  computeUnitsConsumed : number;
  logs : option (list string)
}.
Definition decode (v : value) : option t :=
  r <- as_record v ;;
  if negb (is_string_literal (prop r "type") "transaction") then None else
  c <- decode_commitment r "commitment" ;;
  s <- get_number r "slot" ;;
  sig <- get_string r "signature" ;;
  ts <- get_number_or_null r "timestamp" ;;
  vote <- get_boolean r "isVote" ;;
  i <- get_number r "index" ;;
  e <- get_object_or_null r "err" ;;
  f <- get_number r "fee" ;;
  payer <- get_string r "feePayer" ;;
  acc <- get_optional (get_array decode_string) r "accounts" ;;
  nat_tr <- get_array NativeTransfer.decode r "nativeTransfers" ;;
  tok_tr <- get_array TokenTransfer.decode r "tokenTransfers" ;;
  data <- get_array AccountData.decode r "accountData" ;;
  cu <- get_number r "computeUnitsConsumed" ;;
  lg <- get_optional (get_array decode_string) r "logs" ;;
  Some {| commitment := c; slot := s; signature := sig; timestamp := ts; isVote := vote;
          index := i; err := e; fee := f; feePayer := payer; accounts := acc;
          nativeTransfers := nat_tr; tokenTransfers := tok_tr; accountData := data;
          computeUnitsConsumed := cu; logs := lg |}.
End EnhancedTransactionEvent.

Module RawTransactionEvent.
Record t : Type := {
  commitment : CommitmentLabel;
  slot : number;
  signature : string;
  isVote : bool;
  index : number;
  err : value;
  accounts : option (list string);
  tokenBalanceChanges : option (list YellowstoneTokenBalanceChange.t);
  logs : option (list string);
  computeUnitsConsumed : number
}.
Definition decode (v : value) : option t :=
  r <- as_record v ;;
  if negb (is_string_literal (prop r "type") "transaction") then None else
  c <- decode_commitment r "commitment" ;;
  s <- get_number r "slot" ;;
  sig <- get_string r "signature" ;;
  vote <- get_boolean r "isVote" ;;
  i <- get_number r "index" ;;
  e <- get_object_or_null r "err" ;;
  acc <- get_optional (get_array decode_string) r "accounts" ;;
  tbc <- get_optional (get_array YellowstoneTokenBalanceChange.decode) r
           "tokenBalanceChanges" ;;
  lg <- get_optional (get_array decode_string) r "logs" ;;
  cu <- get_number r "computeUnitsConsumed" ;;
  Some {| commitment := c; slot := s; signature := sig; isVote := vote; index := i;
          err := e; accounts := acc; tokenBalanceChanges := tbc; logs := lg;
          computeUnitsConsumed := cu |}.
End RawTransactionEvent.

(** ** Transaction summarizers (index.ts 442-473) *)

(** A [Set<string>], kept as its elements in insertion order: iterating a
    JavaScript [Set] visits the elements in the order they were first
    added. *)
Definition StringSet : Type := list string.

Definition Set_add (s : StringSet) (x : string) : StringSet :=
  if includes s x then s else s ++ [x].

(** [if (x.mint) mints.add(x.mint)]: the empty string is falsy. *)
Definition add_mint (mints : StringSet) (mint : string) : StringSet :=
  if String.eqb mint "" then mints else Set_add mints mint.

(** [array.slice(0, n)] *)
Definition slice0 (A : Type) (n : nat) (l : list A) : list A := firstn n l.

Definition summarizeRawTransaction (event : RawTransactionEvent.t) : value :=
  let changes :=
    match RawTransactionEvent.tokenBalanceChanges event with
    | Some l => l
    | None => []
    end in
  let mints :=
    fold_left (fun mints change => add_mint mints (YellowstoneTokenBalanceChange.mint change))
      changes [] in
  VObject
    [ ("signature", VString (RawTransactionEvent.signature event));
      ("slot", VNumber (RawTransactionEvent.slot event));
      ("commitment", VString (commitment_text (RawTransactionEvent.commitment event)));
      ("tokenBalanceChanges",
        VNumber (number_of_nat
          match RawTransactionEvent.tokenBalanceChanges event with
          | Some l => List.length l
          | None => 0
          end));
      ("mints", VArray (map VString (slice0 5 mints))) ].

Definition summarizeEnhancedTransaction (event : EnhancedTransactionEvent.t) : value :=
  let mints :=
    fold_left (fun mints transfer => add_mint mints (TokenTransfer.mint transfer))
      (EnhancedTransactionEvent.tokenTransfers event) [] in
  let mints :=
    fold_left
      (fun mints change =>
         fold_left
           (fun mints tokenChange => add_mint mints (TokenBalanceChange.mint tokenChange))
           (AccountData.tokenBalanceChanges change) mints)
      (EnhancedTransactionEvent.accountData event) mints in
  VObject
    [ ("signature", VString (EnhancedTransactionEvent.signature event));
      ("slot", VNumber (EnhancedTransactionEvent.slot event));
      ("commitment", VString (commitment_text (EnhancedTransactionEvent.commitment event)));
      ("tokenTransfers",
        VNumber (number_of_nat (List.length (EnhancedTransactionEvent.tokenTransfers event))));
      ("mints", VArray (map VString (slice0 5 mints))) ].

(** ** Requests, responses and the platform *)

(** A thrown value, as the [catch] clauses read it:
    [err instanceof Error ? err.message : String(err)]. *)
Inductive exn : Type :=
| Error (message : string)
| NonError (text : string).

Definition exn_message (e : exn) : string :=
  match e with
  | Error message => message
  | NonError text => text
  end.

(** How a call ends, or how a promise settles. *)
Inductive outcome (A : Type) : Type :=
| Returned (a : A)
| Threw (e : exn).
Arguments Threw {A} e.

Record RequestInit : Type := {
  method : string;
  headers : list (string * string);
  (** the argument of [JSON.stringify], when there is a body *)
  body : option value
}.

Record Response : Type := {
  status : nat;
  (** [resp.headers.get] *)
  headers_get : string -> option string
}.

(** [resp.ok] *)
Definition ok (resp : Response) : bool :=
  Nat.leb 200 (status resp) && Nat.leb (status resp) 299.

Record URL : Type := {
  pathname : string;
  (** the decoded name/value pairs, in the order of the query string *)
  searchParams : list (string * string)
}.

(** [URLSearchParams.get]: the first value of the name, else [null]. *)
Fixpoint searchParams_get (name : string) (params : list (string * string))
  : option string :=
  match params with
  | [] => None
  | (n, v) :: rest => if String.eqb n name then Some v else searchParams_get name rest
  end.

(** Code the client calls but does not define. *)
Class Platform : Type := {
  (** [new URL(s)] *)
  URL_new : string -> outcome URL;
  (** [new URL(path, base).toString()] *)
  URL_resolve : string -> string -> outcome string;
  (** [httpClient.getPaymentRequiredResponse(getHeader, body)] of @x402/fetch *)
  getPaymentRequiredResponse : (string -> option string) -> value -> outcome value
}.

(** The module-level constants read from the environment (index.ts 14-28). *)
Record Config : Type := {
  HTTP_BASE : string;
  X402_SCHEMA_PATH : string;
  RENEW_METHOD : RenewMethod;
  WATCH_ACCOUNTS : list string;
  WATCH_PROGRAMS : list string;
  INCLUDE_ACCOUNTS : bool;
  INCLUDE_TOKEN_BALANCE_CHANGES : bool;
  INCLUDE_LOGS : bool;
  INCLUDE_INSTRUCTIONS : bool;
  FILTER_TOKEN_BALANCES : bool;
  EVENT_FORMAT : EventFormat;
  TX_LOG_MODE : TxLogMode
}.

(** ** Asynchronous procedures *)

Inductive LogLevel : Type := debug | info | warn | error.

(** What an [async] function can [await]. *)
Inductive request : Type :=
| FetchWithPayment (url : string) (init : RequestInit)
| Fetch (url : string) (init : RequestInit)
| ResponseJson (resp : Response)
| CreatePaymentPayload (paymentRequired : value)
| SetTimeout (ms : nat).

(** What the awaited promise settles to. *)
Definition answer (op : request) : Type :=
  match op with
  | FetchWithPayment _ _ => outcome Response
  | Fetch _ _ => outcome Response
  | ResponseJson _ => outcome value
  | CreatePaymentPayload _ => outcome value
  | SetTimeout _ => unit
  end.

Inductive proc (A : Type) : Type :=
| Return (a : A)
| Throw (e : exn)
(** a payload that passed its guard without inhabiting the declared type *)
| IllTyped
(** a call of [log(level, scope, message, meta)] *)
| Log (level : LogLevel) (scope message : string) (meta : option value) (k : proc A)
(** [ws.send(JSON.stringify(data))] *)
| WsSend (data : value) (k : proc A)
(** a read, or an assignment, of [currentToken] *)
| ReadToken (k : string -> proc A)
| WriteToken (token : string) (k : proc A)
| Await (op : request) (k : answer op -> proc A).
Arguments Throw {A} e.
Arguments IllTyped {A}.

Fixpoint bind (A B : Type) (p : proc A) (f : A -> proc B) : proc B :=
  match p with
  | Return a => f a
  | Throw e => Throw e
  | IllTyped => IllTyped
  | Log level scope message meta k => Log level scope message meta (bind k f)
  | WsSend data k => WsSend data (bind k f)
  | ReadToken k => ReadToken (fun t => bind (k t) f)
  | WriteToken t k => WriteToken t (bind k f)
  | Await op k => Await op (fun x => bind (k x) f)
  end.

(** [try { body } catch (err) { handler }] *)
Fixpoint try_catch (A : Type) (body : proc A) (handler : exn -> proc A) : proc A :=
  match body with
  | Return a => Return a
  | Throw e => handler e
  | IllTyped => IllTyped
  | Log level scope message meta k => Log level scope message meta (try_catch k handler)
  | WsSend data k => WsSend data (try_catch k handler)
  | ReadToken k => ReadToken (fun t => try_catch (k t) handler)
  | WriteToken t k => WriteToken t (try_catch k handler)
  | Await op k => Await op (fun x => try_catch (k x) handler)
  end.

Declare Scope proc_scope.
Delimit Scope proc_scope with proc.
Bind Scope proc_scope with proc.
Notation "'let*' x ':=' p 'in' k" := (bind p (fun x => k))
  (at level 10, x name, p at level 100, k at level 200, only parsing) : proc_scope.
Notation "p ';;' k" := (bind p (fun _ => k))
  (at level 61, right associativity, only parsing) : proc_scope.
Local Open Scope proc_scope.

(** [await promise]: a rejection is thrown at the [await]. *)
Definition settle (A : Type) (r : outcome A) : proc A :=
  match r with
  | Returned a => Return a
  | Threw e => Throw e
  end.

(** a synchronous call that may throw *)
Definition call (A : Type) (r : outcome A) : proc A := settle r.

Definition logInfo (scope message : string) (meta : option value) : proc unit :=
  Log info scope message meta (Return tt).

Definition logWarn (scope message : string) (meta : option value) : proc unit :=
  Log warn scope message meta (Return tt).

Definition logError (scope message : string) (meta : option value) : proc unit :=
  Log error scope message meta (Return tt).

Definition ws_send (data : value) : proc unit := WsSend data (Return tt).

Definition currentToken : proc string := ReadToken (fun t => Return t).

Definition set_currentToken (t : string) : proc unit := WriteToken t (Return tt).

(** [sleep] (index.ts 517-519) *)
Definition sleep (ms : nat) : proc unit := Await (SetTimeout ms) (fun _ => Return tt).

(** Template literals print a status code in decimal. *)
Definition decimal (n : nat) : string := NilZero.string_of_uint (Nat.to_uint n).

(** Reads of a property, of a string and of an array length on a value a
    guard has narrowed. *)
Definition get (v : value) (key : string) : value :=
  match v with
  | VObject r => prop r key
  | _ => VUndefined
  end.

Definition the_string (v : value) : string :=
  match v with
  | VString s => s
  | _ => ""
  end.

Definition array_length (v : value) : value :=
  match v with
  | VArray l => VNumber (number_of_nat (List.length l))
  | _ => VUndefined
  end.

(** JavaScript truthiness *)
Definition truthy (v : value) : bool :=
  match v with
  | VUndefined | VNull => false
  | VBool b => b
  | VNumber (Finite m _) => negb (Z.eqb m 0)
  | VNumber (Infinity _) => true
  | VNumber NaN => false
  | VString s => negb (String.eqb s "")
  | VArray _ | VObject _ => true
  end.

(** ** The client *)

Section Client.

Context {platform : Platform}.
Variable cfg : Config.

Definition entry (key : string) (v : value) : string * value := (key, v).

Definition meta (fields : list (string * value)) : option value := Some (VObject fields).

(** *** URL helpers (index.ts 479-490) and [parseSchemaVersion] (297-310) *)

Definition parseTokenFromWsUrl (wsUrl : string) : string :=
  match URL_new wsUrl with
  | Returned parsed =>
      match searchParams_get "t" (searchParams parsed) with
      | Some t => t
      | None => ""
      end
  | Threw _ => ""
  end.

Definition buildRenewUrl (httpBase streamId : string) (version : X402SchemaVersion)
  : outcome string :=
  URL_resolve ("/" ++ version_text version ++ "/renew/stream/" ++ streamId) httpBase.

Definition parseSchemaVersion (schemaPath : string) : X402SchemaVersion :=
  let rawPath :=
    if negb (String.prefix "http://" schemaPath) && negb (String.prefix "https://" schemaPath)
    then schemaPath
    else
      match URL_new schemaPath with
      | Returned u => pathname u
      | Threw _ => schemaPath
      end in
  if String.prefix "/v1/" rawPath then v1
  else if String.prefix "/v2/" rawPath then v2
  else v1.

(** *** Schema and renewal requests (index.ts 525-582) *)

Record Session : Type := {
  wsUrl : string;
  token : string;
  streamId : string
}.

Definition json_headers : list (string * string) := [("content-type", "application/json")].

Definition await_fetchWithPayment (url : string) (init : RequestInit) : proc Response :=
  Await (FetchWithPayment url init) (fun r => settle r).

Definition await_fetch (url : string) (init : RequestInit) : proc Response :=
  Await (Fetch url init) (fun r => settle r).

Definition await_json (resp : Response) : proc value :=
  Await (ResponseJson resp) (fun r => settle r).

Definition await_createPaymentPayload (paymentRequired : value) : proc value :=
  Await (CreatePaymentPayload paymentRequired) (fun r => settle r).

Definition requestWs402Schema (httpBase : string) : proc Session :=
  let* url := call (URL_resolve (X402_SCHEMA_PATH cfg) httpBase) in
  logInfo "client" "requesting x402 schema" (meta [entry "url" (VString url)]) ;;
  let* resp :=
    await_fetchWithPayment url {| method := "GET"; headers := []; body := None |} in
  if negb (ok resp) then Throw (Error ("x402 schema failed: " ++ decimal (status resp)))
  else
    let* data := await_json resp in
    if negb (isWs402StreamSchema data) then Throw (Error "x402 schema response shape invalid")
    else
      let wsUrl := the_string (get data "websocketEndpoint") in
      let token := parseTokenFromWsUrl wsUrl in
      if String.eqb token "" then Throw (Error "x402 schema missing token")
      else
        logInfo "client" "x402 schema acquired"
          (meta [entry "wsUrl" (VString wsUrl);
                 entry "streamId" (get (get data "stream") "id")]) ;;
        Return {| wsUrl := wsUrl; token := token;
                  streamId := the_string (get (get data "stream") "id") |}.

Definition renew_init (oldToken : string) : RequestInit :=
  {| method := "POST"; headers := json_headers;
     body := Some (VObject [entry "token" (VString oldToken)]) |}.

Definition httpRenew (renewUrl oldToken : string) : proc value :=
  logInfo "client" "requesting http renew" (meta [entry "url" (VString renewUrl)]) ;;
  let* resp := await_fetchWithPayment renewUrl (renew_init oldToken) in
  if negb (ok resp) then Throw (Error ("renew failed: " ++ decimal (status resp)))
  else
    let* data := await_json resp in
    if negb (isRenewResponse data) then Throw (Error "renew response shape invalid")
    else
      logInfo "client" "http renew ok"
        (meta [entry "expiresAt" (get data "expiresAt");
               entry "sliceSeconds" (get data "sliceSeconds")]) ;;
      Return data.

Definition inbandRenewChallenge (renewUrl oldToken : string) : proc value :=
  let* resp := await_fetch renewUrl (renew_init oldToken) in
  if negb (Nat.eqb (status resp) 402)
  then Throw (Error ("expected 402 challenge, got " ++ decimal (status resp)))
  else
    (* resp.json().catch(() => undefined) *)
    let* decoded :=
      Await (ResponseJson resp)
        (fun r => match r with Returned v => Return v | Threw _ => Return VUndefined end) in
    let* paymentRequired := call (getPaymentRequiredResponse (headers_get resp) decoded) in
    if negb (isPaymentRequired paymentRequired)
    then Throw (Error "payment-required response shape invalid")
    else
      logInfo "client" "received inband challenge"
        (meta [entry "accepts" (array_length (get paymentRequired "accepts"))]) ;;
      Return paymentRequired.

(** *** The [open] handler (index.ts 602-635) *)

Definition strings (l : list string) : value := VArray (map VString l).

Definition options : list (string * value) :=
  [ entry "includeAccounts" (VBool (INCLUDE_ACCOUNTS cfg));
    entry "includeTokenBalanceChanges" (VBool (INCLUDE_TOKEN_BALANCE_CHANGES cfg));
    entry "includeLogs" (VBool (INCLUDE_LOGS cfg));
    entry "includeInstructions" (VBool (INCLUDE_INSTRUCTIONS cfg));
    entry "eventFormat" (VString (format_text (EVENT_FORMAT cfg)));
    entry "filterTokenBalances" (VBool (FILTER_TOKEN_BALANCES cfg)) ].

Definition nonempty (A : Type) (l : list A) : bool :=
  match l with [] => false | _ :: _ => true end.

Definition when (b : bool) (p : proc unit) : proc unit :=
  if b then p else Return tt.

Definition onOpen : proc unit :=
  logInfo "client" "ws open" None ;;
  logInfo "client" "setting options" (meta options) ;;
  ws_send (VObject (entry "op" (VString "setOptions") :: options)) ;;
  when (nonempty (WATCH_ACCOUNTS cfg))
    (logInfo "client" "setting watch accounts"
       (meta [entry "count" (VNumber (number_of_nat (List.length (WATCH_ACCOUNTS cfg))))]) ;;
     ws_send (VObject [entry "op" (VString "setAccounts");
                       entry "accounts" (strings (WATCH_ACCOUNTS cfg))])) ;;
  when (nonempty (WATCH_PROGRAMS cfg))
    (logInfo "client" "setting watch programs"
       (meta [entry "count" (VNumber (number_of_nat (List.length (WATCH_PROGRAMS cfg))))]) ;;
     ws_send (VObject [entry "op" (VString "setPrograms");
                       entry "programs" (strings (WATCH_PROGRAMS cfg))])) ;;
  when (negb (nonempty (WATCH_ACCOUNTS cfg)) && negb (nonempty (WATCH_PROGRAMS cfg)))
    (logWarn "client" "no watchlists configured (WATCH_ACCOUNTS/WATCH_PROGRAMS empty)" None) ;;
  ws_send (VObject [entry "op" (VString "getState")]).

(** *** The [message] handler (index.ts 637-731) *)

(** [const [selectedRequirements] = paymentRequired.accepts] *)
Definition first_of (v : value) : value :=
  match v with
  | VArray (x :: _) => x
  | _ => VUndefined
  end.

Definition renew_http (renewUrl : string) : proc unit :=
  let* oldToken := currentToken in
  let* renewed := httpRenew renewUrl oldToken in
  set_currentToken (the_string (get renewed "token")) ;;
  logInfo "client" "sending renew token" None ;;
  let* t := currentToken in
  ws_send (VObject [entry "op" (VString "renew_token"); entry "token" (VString t)]).

Definition renew_inband (renewUrl : string) : proc unit :=
  let* oldToken := currentToken in
  let* paymentRequired := inbandRenewChallenge renewUrl oldToken in
  logInfo "client" "creating inband payment payload" None ;;
  let* paymentPayload := await_createPaymentPayload paymentRequired in
  let selectedRequirements := first_of (get paymentRequired "accepts") in
  if negb (truthy selectedRequirements)
  then Throw (Error "payment-required missing accepts")
  else
    ws_send (VObject [entry "op" (VString "renew_inband");
                      entry "paymentRequirements" selectedRequirements;
                      entry "paymentPayload" paymentPayload]).

Definition renew (renewUrl : string) : proc unit :=
  try_catch
    (match RENEW_METHOD cfg with
     | http => renew_http renewUrl
     | inband => renew_inband renewUrl
     end)
    (fun err =>
       logWarn "client" "renew error" (meta [entry "message" (VString (exn_message err))]) ;;
       sleep 1000).

Definition onTransaction (decoded : value) : proc unit :=
  match TX_LOG_MODE cfg with
  | full => logInfo "client" "transaction" (meta [entry "event" decoded])
  | summary =>
      if isEnhancedTransactionEvent decoded
      then
        match EnhancedTransactionEvent.decode decoded with
        | Some event => logInfo "client" "transaction" (Some (summarizeEnhancedTransaction event))
        | None => IllTyped
        end
      else
        match RawTransactionEvent.decode decoded with
        | Some event => logInfo "client" "transaction" (Some (summarizeRawTransaction event))
        | None => IllTyped
        end
  end.

Definition onStatus (decoded : value) : proc unit :=
  logInfo "client" "status"
    (meta [entry "clientId" (get decoded "clientId");
           entry "grpcConnected" (get decoded "grpcConnected");
           entry "nodeHealthy" (get decoded "nodeHealthy");
           entry "watchedAccounts" (get decoded "watchedAccounts");
           entry "watchedMints" (get decoded "watchedMints")]).

Definition onAccount (decoded : value) : proc unit :=
  logInfo "client" "account"
    (meta [entry "pubkey" (get decoded "pubkey");
           entry "owner" (get decoded "owner");
           entry "slot" (get decoded "slot");
           entry "encoding" (get decoded "dataEncoding")]).

Definition onSlot (decoded : value) : proc unit :=
  logInfo "client" "slot"
    (meta [entry "slot" (get decoded "slot");
           entry "parent" (get decoded "parent");
           entry "status" (get decoded "status")]).

Definition onTicker (decoded : value) : proc unit :=
  logInfo "client" "ticker"
    (meta [entry "baseMint" (get decoded "baseMint");
           entry "quoteMint" (get decoded "quoteMint");
           entry "price" (get decoded "price");
           entry "dex" (get decoded "dex");
           entry "slot" (get decoded "slot")]).

Definition onLeaderboard (decoded : value) : proc unit :=
  logInfo "client" "leaderboard"
    (meta [entry "items" (array_length (get decoded "items"));
           entry "asOf" (get decoded "asOf")]).

Definition onIgnored : proc unit :=
  logWarn "client" "ws event ignored: invalid shape" None.

Definition onX402Event (renewUrl : string) (decoded : value) : proc unit :=
  logInfo "client" "ws event" (meta [entry "op" (get decoded "op")]) ;;
  if is_string_literal (get decoded "op") "renewal_reminder"
     || is_string_literal (get decoded "op") "payment_required"
  then renew renewUrl
  else Return tt.

Definition onMessage (renewUrl : string) (buf : frame) : proc unit :=
  let decoded := safeJsonParse buf in
  if isWsStatusEvent decoded then onStatus decoded
  else if isWsTransactionEvent decoded then onTransaction decoded
  else if isWsAccountEvent decoded then onAccount decoded
  else if isWsSlotEvent decoded then onSlot decoded
  else if isWsTickerEvent decoded then onTicker decoded
  else if isWsLeaderboardEvent decoded then onLeaderboard decoded
  else if negb (isWsX402Event decoded) then onIgnored
  else onX402Event renewUrl decoded.

End Client.

(** *** [main] (index.ts 588-600), from the schema request to the socket

    [createClient] (the signer and its key material) comes first in the
    source and is not part of this model. *)

Record Connection : Type := {
  socketUrl : string;
  renewUrl : string
}.

Definition main {platform : Platform} (cfg : Config) : proc Connection :=
  logInfo "client" "starting"
    (meta [entry "httpBase" (VString (HTTP_BASE cfg));
           entry "renewMethod"
             (VString match RENEW_METHOD cfg with http => "http" | inband => "inband" end);
           entry "schemaPath" (VString (X402_SCHEMA_PATH cfg))]) ;;
  let schemaVersion := parseSchemaVersion (X402_SCHEMA_PATH cfg) in
  let* schema := requestWs402Schema cfg (HTTP_BASE cfg) in
  set_currentToken (token schema) ;;
  let* renewUrl := call (buildRenewUrl (HTTP_BASE cfg) (streamId schema) schemaVersion) in
  logInfo "client" "connecting websocket"
    (meta [entry "wsUrl" (VString (wsUrl schema));
           entry "streamId" (VString (streamId schema))]) ;;
  Return {| socketUrl := wsUrl schema; renewUrl := renewUrl |}.

(** ** Running a procedure to completion

    [run] follows one procedure from start to finish; the [world] says how
    each awaited promise settles. *)

Inductive event : Type :=
| Logged (level : LogLevel) (scope message : string) (meta : option value)
| Sent (data : value)
| Assigned (token : string)
| Awaited (op : request)
(** the promise of a handler call rejected; nothing handles it *)
| Unhandled (e : exn)
(** a handler call left the declared types *)
| Untyped.

Inductive completion (A : Type) : Type :=
| Completed (a : A)
(** the promise of the procedure rejects *)
| Rejects (e : exn)
| Unspecified.
Arguments Rejects {A} e.
Arguments Unspecified {A}.

Definition world : Type := forall op : request, answer op.

Record run_result (A : Type) : Type := {
  trace : list event;
  final_token : string;
  result : completion A
}.

Definition emit (A : Type) (e : event) (r : run_result A) : run_result A :=
  {| trace := e :: trace r; final_token := final_token r; result := result r |}.

Fixpoint run (A : Type) (w : world) (p : proc A) (tok : string) : run_result A :=
  match p with
  | Return a => {| trace := []; final_token := tok; result := Completed a |}
  | Throw e => {| trace := []; final_token := tok; result := Rejects e |}
  | IllTyped => {| trace := []; final_token := tok; result := Unspecified |}
  | Log level scope message meta k => emit (Logged level scope message meta) (run w k tok)
  | WsSend data k => emit (Sent data) (run w k tok)
  | ReadToken k => run w (k tok) tok
  | WriteToken t k => emit (Assigned t) (run w k t)
  | Await op k => emit (Awaited op) (run w (k (w op)) tok)
  end.

(** ** The event loop

    The socket emits [message] without waiting for the promise of the
    previous handler call: a handler runs until it returns or reaches an
    [await], and is resumed when the promise it awaits settles.  Handler
    calls share [currentToken]. *)

Record task : Type := {
  awaiting : request;
  resume : answer awaiting -> proc unit
}.

Record loop : Type := {
  current_token : string;
  tasks : list task;
  history : list event
}.

Definition note (e : event) (st : loop) : loop :=
  {| current_token := current_token st; tasks := tasks st; history := history st ++ [e] |}.

(** How a handler call leaves the loop. *)
Inductive fate : Type :=
| Finished
| Suspended
| UnhandledRejection (e : exn)
| OutsideTypes.

(** Run a procedure until it returns, throws or awaits. *)
Fixpoint advance (p : proc unit) (st : loop) : loop * fate :=
  match p with
  | Return _ => (st, Finished)
  | Throw e => (st, UnhandledRejection e)
  | IllTyped => (st, OutsideTypes)
  | Log level scope message meta k => advance k (note (Logged level scope message meta) st)
  | WsSend data k => advance k (note (Sent data) st)
  | ReadToken k => advance (k (current_token st)) st
  | WriteToken t k =>
      advance k {| current_token := t; tasks := tasks st;
                   history := history st ++ [Assigned t] |}
  | Await op k =>
      ({| current_token := current_token st;
          tasks := tasks st ++ [{| awaiting := op; resume := k |}];
          history := history st ++ [Awaited op] |}, Suspended)
  end.

(** What happens to the loop: a frame arrives, or the promise awaited by the
    [i]-th suspended handler settles as the world says. *)
Inductive occurrence : Type :=
| Message (buf : frame)
| Settle (i : nat) (w : world).

Fixpoint remove_nth (A : Type) (i : nat) (l : list A) : list A :=
  match l, i with
  | [], _ => []
  | _ :: rest, O => rest
  | x :: rest, S j => x :: remove_nth j rest
  end.

(** The socket drops the promise a handler call returns. *)
Definition drop_promise (r : loop * fate) : loop :=
  match snd r with
  | UnhandledRejection e => note (Unhandled e) (fst r)
  | OutsideTypes => note Untyped (fst r)
  | Finished | Suspended => fst r
  end.

Definition react {platform : Platform} (cfg : Config) (renewUrl : string)
  (st : loop) (o : occurrence) : loop :=
  match o with
  | Message buf => drop_promise (advance (onMessage cfg renewUrl buf) st)
  | Settle i w =>
      match nth_error (tasks st) i with
      | None => st
      | Some t =>
          drop_promise
            (advance (resume t (w (awaiting t)))
               {| current_token := current_token st;
                  tasks := remove_nth i (tasks st);
                  history := history st |})
      end
  end.

Definition start (tok : string) : loop :=
  {| current_token := tok; tasks := []; history := [] |}.

Definition run_loop {platform : Platform} (cfg : Config) (renewUrl tok : string)
  (schedule : list occurrence) : loop :=
  fold_left (react cfg renewUrl) schedule (start tok).

(** ** Notions the statements below are written in *)

(** *** Classification, in the words of the specification *)

Inductive variant : Type :=
| Status | Transaction | Account | Slot | Ticker | Leaderboard | Lifecycle.

(** The fixed order in which the variants are tried. *)
Definition precedence : list variant :=
  [Status; Transaction; Account; Slot; Ticker; Leaderboard; Lifecycle].

Definition rank (k : variant) : nat :=
  match k with
  | Status => 0 | Transaction => 1 | Account => 2 | Slot => 3
  | Ticker => 4 | Leaderboard => 5 | Lifecycle => 6
  end.

(** A record tagged [type = tag] whose [field] is a string. *)
Definition tagged_with_string (tag field : string) (v : value) : Prop :=
  exists r s, v = VObject r /\ lookup "type" r = Some (VString tag)
              /\ lookup field r = Some (VString s).

(** The structural requirement of each variant. *)
Definition structure (k : variant) (v : value) : Prop :=
  match k with
  | Status => tagged_with_string "status" "now" v
  | Transaction => tagged_with_string "transaction" "signature" v
  | Account => tagged_with_string "account" "pubkey" v
  | Slot =>
      exists r n, v = VObject r /\ lookup "type" r = Some (VString "slot")
                  /\ lookup "slot" r = Some (VNumber n)
  | Ticker => tagged_with_string "ticker" "baseMint" v
  | Leaderboard =>
      exists r items, v = VObject r /\ lookup "type" r = Some (VString "leaderboard")
                      /\ lookup "items" r = Some (VArray items)
  | Lifecycle =>
      exists r op, v = VObject r /\ lookup "op" r = Some (VString op)
                   /\ In op ["hello"; "renewal_reminder"; "payment_required"; "renewed"; "error"]
  end.

(** The guard the handler tests for each variant, and the branch it takes. *)
Definition guard (k : variant) : value -> bool :=
  match k with
  | Status => isWsStatusEvent
  | Transaction => isWsTransactionEvent
  | Account => isWsAccountEvent
  | Slot => isWsSlotEvent
  | Ticker => isWsTickerEvent
  | Leaderboard => isWsLeaderboardEvent
  | Lifecycle => isWsX402Event
  end.

Definition branch {platform : Platform} (cfg : Config) (renewUrl : string)
  (k : option variant) (decoded : value) : proc unit :=
  match k with
  | Some Status => onStatus decoded
  | Some Transaction => onTransaction cfg decoded
  | Some Account => onAccount decoded
  | Some Slot => onSlot decoded
  | Some Ticker => onTicker decoded
  | Some Leaderboard => onLeaderboard decoded
  | Some Lifecycle => onX402Event cfg renewUrl decoded
  | None => onIgnored
  end.

(** The first variant of [precedence] whose guard accepts the value. *)
Definition classify (v : value) : option variant :=
  find (fun k => guard k v) precedence.

(** *** Distinct mints, in the order of first encounter *)

(** [distinct l] keeps the first occurrence of every element of [l]. *)
Fixpoint distinct (l : list string) : list string :=
  match l with
  | [] => []
  | x :: rest => x :: filter (fun y => negb (String.eqb y x)) (distinct rest)
  end.

(** The mints of an event, in the order the summarizer meets them. *)
Definition raw_mints (event : RawTransactionEvent.t) : list string :=
  match RawTransactionEvent.tokenBalanceChanges event with
  | Some changes => map YellowstoneTokenBalanceChange.mint changes
  | None => []
  end.

Definition enhanced_mints (event : EnhancedTransactionEvent.t) : list string :=
  map TokenTransfer.mint (EnhancedTransactionEvent.tokenTransfers event)
  ++ flat_map (fun change => map TokenBalanceChange.mint (AccountData.tokenBalanceChanges change))
       (EnhancedTransactionEvent.accountData event).

(** a mint that is not the empty string *)
Definition named (mint : string) : bool := negb (String.eqb mint "").

(** *** Renewals in the event loop *)

(** The lifecycle events that start a renewal. *)
Definition is_trigger (buf : frame) : bool :=
  let decoded := safeJsonParse buf in
  match classify decoded with
  | Some Lifecycle =>
      is_string_literal (get decoded "op") "renewal_reminder"
      || is_string_literal (get decoded "op") "payment_required"
  | _ => false
  end.

Definition triggers (schedule : list occurrence) : nat :=
  List.length
    (filter (fun o => match o with Message buf => is_trigger buf | Settle _ _ => false end)
       schedule).

(** A renewal attempt is in flight while its handler waits for the renewal
    endpoint, for the body of its response, or for the signer. *)
Definition renewal_request (op : request) : bool :=
  match op with
  | SetTimeout _ => false
  | _ => true
  end.

Definition renewals_in_flight (st : loop) : nat :=
  List.length (filter (fun t => renewal_request (awaiting t)) (tasks st)).

(** [renew_token] and [renew_inband] control messages *)
Definition renewal_message (data : value) : bool :=
  is_string_literal (get data "op") "renew_token"
  || is_string_literal (get data "op") "renew_inband".

Definition sent (events : list event) : list value :=
  flat_map (fun e => match e with Sent data => [data] | _ => [] end) events.

Definition renewals_sent (events : list event) : nat :=
  List.length (filter renewal_message (sent events)).

Definition warnings (events : list event) : list string :=
  flat_map (fun e => match e with Logged warn _ message _ => [message] | _ => [] end) events.

Definition assignments (events : list event) : list string :=
  flat_map (fun e => match e with Assigned t => [t] | _ => [] end) events.

Definition requests (events : list event) : list request :=
  flat_map (fun e => match e with Awaited op => [op] | _ => [] end) events.

(** *** Sample events *)

Definition balance_change (mint : string) : YellowstoneTokenBalanceChange.t :=
  {| YellowstoneTokenBalanceChange.account := "account";
     YellowstoneTokenBalanceChange.mint := mint;
     YellowstoneTokenBalanceChange.owner := None;
     YellowstoneTokenBalanceChange.decimals := number_of_nat 6;
     YellowstoneTokenBalanceChange.preAmount := "0";
     YellowstoneTokenBalanceChange.preAmountUi := "0";
     YellowstoneTokenBalanceChange.postAmount := "1";
     YellowstoneTokenBalanceChange.postAmountUi := "1";
     YellowstoneTokenBalanceChange.delta := "1";
     YellowstoneTokenBalanceChange.deltaUi := "1" |}.

Definition raw_event (mints : list string) : RawTransactionEvent.t :=
  {| RawTransactionEvent.commitment := processed;
     RawTransactionEvent.slot := number_of_nat 100;
     RawTransactionEvent.signature := "sig";
     RawTransactionEvent.isVote := false;
     RawTransactionEvent.index := number_of_nat 0;
     RawTransactionEvent.err := VNull;
     RawTransactionEvent.accounts := None;
     RawTransactionEvent.tokenBalanceChanges := Some (map balance_change mints);
     RawTransactionEvent.logs := None;
     RawTransactionEvent.computeUnitsConsumed := number_of_nat 0 |}.

(** *** A sample platform, configuration and session *)

Definition sample_endpoint : string := "wss://stream.example/ws?t=abc123".

Definition sample_platform : Platform :=
  {| URL_new := fun s =>
       if String.eqb s sample_endpoint
       then Returned {| pathname := "/ws"; searchParams := [("t", "abc123")] |}
       else Threw (Error "Invalid URL");
     URL_resolve := fun path base => Returned (base ++ path)%string;
     getPaymentRequiredResponse := fun _ decoded => Returned decoded |}.

Definition sample_cfg (renewMethod : RenewMethod) (mode : TxLogMode) : Config :=
  {| HTTP_BASE := "https://x402.atomicstream.net";
     X402_SCHEMA_PATH := "/v1/schema/stream/mempool-sniff";
     RENEW_METHOD := renewMethod;
     WATCH_ACCOUNTS := ["4vJ9JU1bJJE96FWSJKvHsmmFADCg4gpZQff4P3bkLKi"];
     WATCH_PROGRAMS := [];
     INCLUDE_ACCOUNTS := true;
     INCLUDE_TOKEN_BALANCE_CHANGES := true;
     INCLUDE_LOGS := false;
     INCLUDE_INSTRUCTIONS := false;
     FILTER_TOKEN_BALANCES := false;
     EVENT_FORMAT := enhanced;
     TX_LOG_MODE := mode |}.

Definition sample_schema : value :=
  VObject
    [ ("protocol", VString "ws402");
      ("version", VString "1");
      ("websocketEndpoint", VString sample_endpoint);
      ("pricing",
        VObject [("pricePerSecond", VNumber (Finite 1 (-7)));
                 ("currency", VString "USDC");
                 ("estimatedDuration", VNumber (number_of_nat 300))]);
      ("paymentDetails",
        VObject [("scheme", VString "exact");
                 ("network", VString "solana");
                 ("asset", VString "USDC");
                 ("payTo", VString "payee");
                 ("maxAmountRequired", VString "3000000");
                 ("maxTimeoutSeconds", VNumber (number_of_nat 60))]);
      ("stream",
        VObject [("id", VString "mempool-sniff");
                 ("title", VString "Mempool sniff");
                 ("description", VString "Processed transactions")]) ].

Definition response (code : nat) : Response :=
  {| status := code; headers_get := fun _ => None |}.

(** A world in which every fetch, every body and every signature settle the
    same way. *)
Definition uniform_world (fetched : outcome Response) (parsed signed : outcome value)
  : world :=
  fun op =>
    match op as o return answer o with
    | FetchWithPayment _ _ => fetched
    | Fetch _ _ => fetched
    | ResponseJson _ => parsed
    | CreatePaymentPayload _ => signed
    | SetTimeout _ => tt
    end.

Definition sample_renewUrl : string :=
  "https://x402.atomicstream.net/v1/renew/stream/mempool-sniff".

Definition lifecycle (op : string) : frame := JsonText (VObject [("op", VString op)]).

Definition renewed_body (newToken : string) : value :=
  VObject [("token", VString newToken);
           ("expiresAt", VString "2026-01-01T00:05:00.000Z");
           ("sliceSeconds", VNumber (number_of_nat 300))].

Definition challenge (accepts : list value) : value :=
  VObject [("x402Version", VNumber (number_of_nat 1)); ("accepts", VArray accepts)].


Definition raw_payload : value :=
  VObject
    [ ("type", VString "transaction");
      ("commitment", VString "confirmed");
      ("slot", VNumber (Finite 392892993 0));
      ("signature", VString "5hRaw");
      ("isVote", VBool false);
      ("index", VNumber (number_of_nat 3));
      ("err", VNull);
      ("computeUnitsConsumed", VNumber (number_of_nat 900)) ].

(** *** The renewal requests and their failure *)

(** The POST of both renewal strategies: [{ token: oldToken }] as JSON. *)
Definition renewal_post (oldToken : string) : RequestInit :=
  {| method := "POST";
     headers := [("content-type", "application/json")];
     body := Some (VObject [("token", VString oldToken)]) |}.

(** How a failed renewal ends: the warning, then the one-second timer. *)
Definition failure_tail (message : string) : list event :=
  [ Logged warn "client" "renew error" (Some (VObject [("message", VString message)]));
    Awaited (SetTimeout 1000) ].

(** A run that ends as a caught renewal failure: nothing was sent or
    assigned before the warning and the timer, and the handler completes. *)
Definition fails_softly (tok message : string) (r : run_result unit) : Prop :=
  exists before,
    trace r = before ++ failure_tail message
    /\ sent before = []
    /\ assignments before = []
    /\ final_token r = tok
    /\ result r = Completed tt.

(** Sequencing two runs, and catching the rejection of the first. *)
Definition then_run (A B : Type) (first : run_result A)
  (next : A -> string -> run_result B) : run_result B :=
  match result first with
  | Completed a =>
      let second := next a (final_token first) in
      {| trace := trace first ++ trace second;
         final_token := final_token second;
         result := result second |}
  | Rejects e =>
      {| trace := trace first; final_token := final_token first; result := Rejects e |}
  | Unspecified =>
      {| trace := trace first; final_token := final_token first; result := Unspecified |}
  end.

Definition catch_run (A : Type) (first : run_result A)
  (handler : exn -> string -> run_result A) : run_result A :=
  match result first with
  | Rejects e =>
      let second := handler e (final_token first) in
      {| trace := trace first ++ trace second;
         final_token := final_token second;
         result := result second |}
  | _ => first
  end.

(** The renewal attempt of the configured strategy, without its [catch]. *)
Definition attempt {platform : Platform} (cfg : Config) (renewUrl : string) : proc unit :=
  match RENEW_METHOD cfg with
  | http => renew_http renewUrl
  | inband => renew_inband renewUrl
  end.

(** *** Properties of every path of a procedure

    [always] holds of a procedure when, whatever the awaited outcomes and
    as long as [currentToken] reads a token in [tokens], every exception
    that escapes is in [throws], every awaited request in [awaits], every
    message sent in [sends] and every token assigned in [writes] and in
    [tokens]. *)

Section Always.

Variable tokens : string -> Prop.
Variable throws : exn -> Prop.
Variable awaits : request -> Prop.
Variable sends : value -> Prop.
Variable writes : string -> Prop.

Inductive always (A : Type) : proc A -> Prop :=
| always_return (a : A) : always (Return a)
| always_throw (e : exn) : throws e -> always (Throw e)
| always_illtyped : always IllTyped
| always_log (level : LogLevel) (scope message : string) (m : option value) (k : proc A) :
    always k -> always (Log level scope message m k)
| always_send (data : value) (k : proc A) :
    sends data -> always k -> always (WsSend data k)
| always_read (k : string -> proc A) :
    (forall t, tokens t -> always (k t)) -> always (ReadToken k)
| always_write (t : string) (k : proc A) :
    writes t -> tokens t -> always k -> always (WriteToken t k)
| always_await (op : request) (k : answer op -> proc A) :
    awaits op -> (forall x, always (k x)) -> always (Await op k).

Definition event_allowed (e : event) : Prop :=
  match e with
  | Logged _ _ _ _ => True
  | Sent data => sends data
  | Assigned t => writes t
  | Awaited op => awaits op
  | Unhandled e => throws e
  | Untyped => True
  end.

Definition task_allowed (t : task) : Prop :=
  awaits (awaiting t) /\ forall x, always (resume t x).

Definition loop_allowed (st : loop) : Prop :=
  tokens (current_token st)
  /\ Forall task_allowed (tasks st)
  /\ Forall event_allowed (history st).

End Always.

(** *** A session: [main], then the event loop on the socket it opened *)

(** [currentToken] does not exist before [main] declares it; the run of
    [main] starts from the empty string and assigns the token of the schema. *)
Definition session {platform : Platform} (cfg : Config) (w : world)
  (schedule : list occurrence) : option loop :=
  let started := run w (main cfg) "" in
  match result started with
  | Completed connection =>
      Some (run_loop cfg (renewUrl connection) (final_token started) schedule)
  | _ => None
  end.

(** The requests of an in-band renewal that carries the token [tok]. *)
Definition inband_request (url tok : string) (op : request) : Prop :=
  match op with
  | Fetch u init => u = url /\ init = renewal_post tok
  | FetchWithPayment _ _ => False
  | ResponseJson _ | CreatePaymentPayload _ => True
  | SetTimeout ms => ms = 1000
  end.

Definition anything (A : Type) (a : A) : Prop := True.
Definition nothing (A : Type) (a : A) : Prop := False.

Definition sample_requirement : value :=
  VObject [("scheme", VString "exact"); ("network", VString "solana");
           ("maxAmountRequired", VString "3000000")].

Definition sample_payload : value :=
  VObject [("x402Version", VNumber (number_of_nat 1));
           ("payload", VObject [("transaction", VString "signed")])].

(** The renewal endpoint answers 200 with a new token. *)
Definition world_renewed : world :=
  uniform_world (Returned (response 200)) (Returned (renewed_body "tok2"))
    (Threw (Error "no signer")).

(** The renewal endpoint answers 500. *)
Definition world_500 : world :=
  uniform_world (Returned (response 500)) (Threw (Error "Unexpected end of JSON input"))
    (Threw (Error "no signer")).

(** The renewal endpoint challenges with the given [accepts]; the signer
    settles as given. *)
Definition world_challenge (accepts : list value) (signed : outcome value) : world :=
  uniform_world (Returned (response 402)) (Returned (challenge accepts)) signed.

(** A world for a whole session: the schema request is paid and answered,
    the renewal endpoint challenges, the signer signs. *)
Definition session_world : world :=
  fun op =>
    match op as o return answer o with
    | FetchWithPayment _ _ => Returned (response 200)
    | Fetch _ _ => Returned (response 402)
    | ResponseJson resp =>
        if Nat.eqb (status resp) 200 then Returned sample_schema
        else Returned (challenge [sample_requirement])
    | CreatePaymentPayload _ => Returned sample_payload
    | SetTimeout _ => tt
    end.

Definition sample_schedule : list occurrence :=
  [ Message (lifecycle "hello");
    Message (lifecycle "renewal_reminder");
    Settle 0 session_world;
    Settle 0 session_world;
    Settle 0 session_world ].

(** ** Further notions: the rest of [index.ts] and the key conversion script *)

(** *** The shape of a schema response, field by field *)





(** The GET of the schema request. *)
Definition schema_get (url : string) : request :=
  FetchWithPayment url {| method := "GET"; headers := []; body := None |}.

(** *** Logging (index.ts 225-263) *)

Definition levelOrder (level : LogLevel) : nat :=
  match level with
  | debug => 10
  | info => 20
  | warn => 30
  | error => 40
  end.

Definition level_text (level : LogLevel) : string :=
  match level with
  | debug => "debug"
  | info => "info"
  | warn => "warn"
  | error => "error"
  end.

(** [levelOrder] is an object literal, so [levelOrder[key]] also finds what
    every object inherits from [Object.prototype]: a function, or the
    prototype itself for [__proto__], never a number and never nullish. *)
Definition Object_prototype_properties : list string :=
  [ "constructor"; "__defineGetter__"; "__defineSetter__"; "hasOwnProperty";
    "__lookupGetter__"; "__lookupSetter__"; "isPrototypeOf"; "propertyIsEnumerable";
    "toString"; "valueOf"; "__proto__"; "toLocaleString" ].

Inductive level_entry : Type :=
| OwnLevel (n : nat)
| Inherited
| NoEntry.

Definition levelOrder_get (key : string) : level_entry :=
  if String.eqb key "debug" then OwnLevel (levelOrder debug)
  else if String.eqb key "info" then OwnLevel (levelOrder info)
  else if String.eqb key "warn" then OwnLevel (levelOrder warn)
  else if String.eqb key "error" then OwnLevel (levelOrder error)
  else if includes Object_prototype_properties key then Inherited
  else NoEntry.

(** [minLevel]: a number, or an inherited object, against which every
    comparison [n >= minLevel] is false. *)
Inductive threshold : Type :=
| AtLeast (n : nat)
| NotANumber.

(** [configuredLevel], given [String.prototype.toLowerCase] *)
Definition configuredLevel (toLowerCase : string -> string) (LOG_LEVEL : option string)
  : string :=
  toLowerCase match LOG_LEVEL with Some s => s | None => "info" end.

(** [levelOrder[configuredLevel] ?? levelOrder.info] *)
Definition minLevel (configured : string) : threshold :=
  match levelOrder_get configured with
  | OwnLevel n => AtLeast n
  | Inherited => NotANumber
  | NoEntry => AtLeast (levelOrder info)
  end.

Definition shouldLog (min : threshold) (level : LogLevel) : bool :=
  match min with
  | AtLeast n => Nat.leb n (levelOrder level)
  | NotANumber => false
  end.

Definition double_quote : string := String (ascii_of_nat 34) EmptyString.

(** [formatMeta], given [JSON.stringify] *)
Definition formatMeta (JSON_stringify : value -> outcome string) (m : option value)
  : string :=
  match m with
  | None => ""
  | Some v =>
      if negb (truthy v) then ""
      else
        match JSON_stringify v with
        | Returned text => text
        | Threw _ => (double_quote ++ "[unserializable]" ++ double_quote)%string
        end
  end.

Inductive console_method : Type := console_log | console_warn | console_error.

(** [log], given the threshold, [JSON.stringify] and the time stamp
    [new Date().toISOString()] of the call: the line it prints and where. *)
Definition log (min : threshold) (JSON_stringify : value -> outcome string) (ts : string)
  (level : LogLevel) (scope message : string) (m : option value)
  : option (console_method * string) :=
  if negb (shouldLog min level) then None
  else
    let metaText := formatMeta JSON_stringify m in
    let line :=
      ("[" ++ ts ++ "] [" ++ scope ++ "] [" ++ level_text level ++ "] " ++ message
       ++ (if negb (String.eqb metaText "") then " " ++ metaText else ""))%string in
    Some (match level with
          | error => console_error
          | warn => console_warn
          | _ => console_log
          end, line).

(** What a run prints, every log call being stamped [ts]. *)
Definition printed (min : threshold) (JSON_stringify : value -> outcome string)
  (ts : string) (events : list event) : list (console_method * string) :=
  flat_map
    (fun e =>
       match e with
       | Logged level scope message m =>
           match log min JSON_stringify ts level scope message m with
           | Some line => [line]
           | None => []
           end
       | _ => []
       end)
    events.

(** *** Parsing the environment (index.ts 312-341)

    The strings of the environment are read as UTF-8: a comma is the byte
    44 wherever it occurs, and the white space and line terminators that
    [String.prototype.trim] removes are the code points U+0009..U+000D,
    U+0020, U+00A0, U+1680, U+2000..U+200A, U+2028, U+2029, U+202F, U+205F,
    U+3000 and U+FEFF in their encodings of one, two or three bytes. *)

(** [s.split(sep)] for a separator of one character: never an empty list. *)
Fixpoint split_on (sep : ascii) (s : string) : list string :=
  match s with
  | EmptyString => [EmptyString]
  | String c rest =>
      if Ascii.eqb c sep then EmptyString :: split_on sep rest
      else
        match split_on sep rest with
        | [] => [String c EmptyString]
        | first :: others => String c first :: others
        end
  end.

Definition space1 (a : ascii) : bool :=
  let n := nat_of_ascii a in
  (Nat.leb 9 n && Nat.leb n 13) || Nat.eqb n 32.

Definition space2 (a b : ascii) : bool :=
  Nat.eqb (nat_of_ascii a) 194 && Nat.eqb (nat_of_ascii b) 160.

Definition space3 (a b c : ascii) : bool :=
  let x := nat_of_ascii a in
  let y := nat_of_ascii b in
  let z := nat_of_ascii c in
  (Nat.eqb x 225 && Nat.eqb y 154 && Nat.eqb z 128)
  || (Nat.eqb x 226 && Nat.eqb y 128
      && ((Nat.leb 128 z && Nat.leb z 138) || Nat.eqb z 168 || Nat.eqb z 169
          || Nat.eqb z 175))
  || (Nat.eqb x 226 && Nat.eqb y 129 && Nat.eqb z 159)
  || (Nat.eqb x 227 && Nat.eqb y 128 && Nat.eqb z 128)
  || (Nat.eqb x 239 && Nat.eqb y 187 && Nat.eqb z 191).

(** The rest of a string after one white space character at its head. *)
Definition leading_space (s : string) : option string :=
  match s with
  | EmptyString => None
  | String a rest =>
      if space1 a then Some rest
      else
        match rest with
        | EmptyString => None
        | String b rest2 =>
            if space2 a b then Some rest2
            else
              match rest2 with
              | EmptyString => None
              | String c rest3 => if space3 a b c then Some rest3 else None
              end
        end
  end.

Fixpoint trimStart (s : string) : string :=
  match s with
  | EmptyString => EmptyString
  | String a rest =>
      if space1 a then trimStart rest
      else
        match rest with
        | EmptyString => s
        | String b rest2 =>
            if space2 a b then trimStart rest2
            else
              match rest2 with
              | EmptyString => s
              | String c rest3 => if space3 a b c then trimStart rest3 else s
              end
        end
  end.

(** nothing but white space *)
Definition blank (s : string) : bool := String.eqb (trimStart s) EmptyString.

Fixpoint trimEnd (s : string) : string :=
  match s with
  | EmptyString => EmptyString
  | String a rest => if blank s then EmptyString else String a (trimEnd rest)
  end.

Definition trim (s : string) : string := trimEnd (trimStart s).

Definition comma : ascii := ascii_of_nat 44.

Definition parseList (v : option string) : list string :=
  match v with
  | None => []
  | Some s =>
      if String.eqb s EmptyString then []
      else filter (fun item => negb (String.eqb item EmptyString)) (map trim (split_on comma s))
  end.

(** The remaining parsers, given [String.prototype.toLowerCase]. *)

Definition parseBoolean (toLowerCase : string -> string) (v : option string)
  (fallback : bool) : bool :=
  match v with
  | None => fallback
  | Some s =>
      let normalized := toLowerCase s in
      if String.eqb normalized "true" then true
      else if String.eqb normalized "false" then false
      else fallback
  end.

Definition parseEventFormat (toLowerCase : string -> string) (v : option string)
  : option EventFormat :=
  match v with
  | None => None
  | Some s =>
      if String.eqb s EmptyString then None
      else
        let normalized := toLowerCase s in
        if String.eqb normalized "raw" then Some raw
        else if String.eqb normalized "enhanced" then Some enhanced
        else None
  end.

Definition parseTxLogMode (toLowerCase : string -> string) (v : option string)
  : TxLogMode :=
  match v with
  | None => full
  | Some s =>
      if String.eqb s EmptyString then full
      else
        let normalized := toLowerCase s in
        if String.eqb normalized "full" then full
        else if String.eqb normalized "summary" then summary
        else full
  end.

(** Lower-casing of the letters A to Z, which is what [toLowerCase] does to
    a string of ASCII characters. *)
Definition lower_ascii (a : ascii) : ascii :=
  let n := nat_of_ascii a in
  if Nat.leb 65 n && Nat.leb n 90 then ascii_of_nat (n + 32) else a.

Fixpoint lower_letters (s : string) : string :=
  match s with
  | EmptyString => EmptyString
  | String a rest => String (lower_ascii a) (lower_letters rest)
  end.

(** [l.join(',')] *)
Definition join (l : list string) : string := String.concat (String comma EmptyString) l.

(** The items [parseList] leaves as they are. *)
Definition clean (item : string) : Prop :=
  item <> EmptyString
  /\ ~ In comma (list_ascii_of_string item)
  /\ trim item = item.

Definition sample_accounts : list string :=
  ["4vJ9JU1bJJE96FWSJKvHsmmFADCg4gpZQff4P3bkLKi"; "TokenkegQfeZyiNwAJbNbGKPFXCWuBvf9Ss623VQ5DA"].

(** *** The key conversion script (scripts/solana-keypair-to-base58.ts) *)

(** The integer a number is, when [Number.isInteger] holds of it. *)
Definition integer_value (n : number) : option Z :=
  match n with
  | Finite m e =>
      if (0 <=? e)%Z then Some (m * 2 ^ e)%Z
      else if (m mod 2 ^ (- e) =? 0)%Z then Some (m / 2 ^ (- e))%Z
      else None
  | Infinity _ => None
  | NaN => None
  end.

(** [Number.isInteger(n) && n >= 0 && n <= 255] *)
Definition is_byte (v : value) : bool :=
  match v with
  | VNumber n =>
      match integer_value n with
      | Some z => (0 <=? z)%Z && (z <=? 255)%Z
      | None => false
      end
  | _ => false
  end.

Definition isByteArray (v : value) : bool :=
  match v with
  | VArray items => forallb is_byte items
  | _ => false
  end.

(** [record.key] on a value that is an object or an array *)
Definition member (data : value) (key : string) : value :=
  match data with
  | VObject r => prop r key
  | _ => VUndefined
  end.

Definition items_of (v : value) : list value :=
  match v with
  | VArray items => items
  | _ => []
  end.

(** [extractKey]: the array found, or [null] *)
Definition extractKey (data : value) : option (list value) :=
  if isByteArray data then Some (items_of data)
  else
    if truthy data && match data with VObject _ | VArray _ => true | _ => false end
    then
      if isByteArray (member data "secretKey") then Some (items_of (member data "secretKey"))
      else if isByteArray (member data "privateKey")
      then Some (items_of (member data "privateKey"))
      else if isByteArray (member data "keypair") then Some (items_of (member data "keypair"))
      else None
    else None.

(** The places [extractKey] looks at, in its order. *)
Definition candidates (data : value) : list value :=
  [data; member data "secretKey"; member data "privateKey"; member data "keypair"].

(** [Uint8Array.from(keyArray)] *)
Definition byte_of (v : value) : Z :=
  match v with
  | VNumber n => match integer_value n with Some z => z | None => 0%Z end
  | _ => 0%Z
  end.

Record script_result : Type := {
  stdout : list string;
  stderr : list string;
  (** the argument of [process.exit], when it is called *)
  exit_status : option nat
}.

Definition usage : string :=
  "Usage: npx ts-node scripts/solana-keypair-to-base58.ts <path-to-keypair.json>".

Definition no_key : string :=
  ("Expected a JSON array of byte values (0-255), "
   ++ "or an object with secretKey/privateKey/keypair.")%string.

(** [main] of the script and the [catch] on its promise, given the
    argument of the script, what [readFileSync] followed by [JSON.parse]
    gives for a path, and what the import of [bs58] gives: its [encode], or
    the exception it rejects with. *)
Definition keypair_to_base58 (bs58 : outcome (list Z -> string)) (filePath : option string)
  (read_json : string -> outcome value) : script_result :=
  let exit_with (message : list string) :=
    {| stdout := []; stderr := message; exit_status := Some 1 |} in
  match filePath with
  | None => exit_with [usage]
  | Some path =>
      if String.eqb path EmptyString then exit_with [usage]
      else
        match read_json path with
        | Threw e =>
            exit_with [("Failed to read/parse JSON file: " ++ path)%string; exn_message e]
        | Returned json =>
            match extractKey json with
            | None => exit_with [no_key]
            | Some keyArray =>
                match bs58 with
                | Threw e => exit_with [exn_message e]
                | Returned encode =>
                    {| stdout := [encode (map byte_of keyArray)];
                       stderr := [];
                       exit_status := None |}
                end
            end
        end
  end.


(** What the socket records when it drops the promise of a handler call
    that ended this way. *)
Definition dropped (c : completion unit) : list event :=
  match c with
  | Completed _ => []
  | Rejects e => [Unhandled e]
  | Unspecified => [Untyped]
  end.

(** Every promise of the one pending handler call settles, as [w] says,
    before the next frame arrives. *)
Definition settled_in_turn (w : world) (awaits : nat) : list occurrence :=
  repeat (Settle 0 w) awaits.

(** A handler call together with the settling of its promises. *)
Definition undisturbed (w : world) (buf : frame) (awaits : nat) : list occurrence :=
  Message buf :: settled_in_turn w awaits.

(** * Properties *)

(** ** Reading fields *)

Lemma is_string_literal_true (v : value) (literal : string) :
  is_string_literal v literal = true <-> v = VString literal.
Proof.
  destruct v; simpl; try (split; [discriminate | intros [=]]).
  rewrite String.eqb_eq. split; [congruence | intros [=]; assumption].
Qed.

Lemma typeof_string_true (v : value) :
  typeof_string v = true <-> exists s, v = VString s.
Proof.
  split; [destruct v; try discriminate; eauto | intros [x ->]; reflexivity].
Qed.

Lemma typeof_number_true (v : value) :
  typeof_number v = true <-> exists n, v = VNumber n.
Proof.
  split; [destruct v; try discriminate; eauto | intros [x ->]; reflexivity].
Qed.

Lemma Array_isArray_true (v : value) :
  Array_isArray v = true <-> exists items, v = VArray items.
Proof.
  split; [destruct v; try discriminate; eauto | intros [x ->]; reflexivity].
Qed.

Lemma prop_defined (r : list (string * value)) (key : string) (v : value) :
  v <> VUndefined -> (prop r key = v <-> lookup key r = Some v).
Proof.
  unfold prop. intros Hv. destruct (lookup key r) as [x|]; split; congruence.
Qed.

Lemma includes_In (l : list string) (s : string) : includes l s = true <-> In s l.
Proof.
  unfold includes. rewrite existsb_exists. split.
  - intros [x [Hin Heq]]. apply String.eqb_eq in Heq. subst. assumption.
  - intros Hin. exists s. split; [assumption | apply String.eqb_refl].
Qed.

Lemma guard_tagged (tag field : string) (v : value) :
  match as_record v with
  | None => false
  | Some r => is_string_literal (prop r "type") tag && typeof_string (prop r field)
  end = true <-> tagged_with_string tag field v.
Proof.
  unfold tagged_with_string. destruct v; cbn [as_record];
    try (split; [discriminate | intros (? & ? & [=] & _)]).
  rewrite andb_true_iff, is_string_literal_true, typeof_string_true.
  rewrite prop_defined by discriminate. split.
  - intros [Htype [s Hs]]. exists fields, s. rewrite prop_defined in Hs by discriminate. auto.
  - intros (r & s & [= <-] & Htype & Hs). split; [assumption|].
    exists s. apply prop_defined; [discriminate | assumption].
Qed.

(** Each guard accepts exactly the values of the structure the specification
    gives for its variant. *)
Lemma guard_structure (k : variant) (v : value) : guard k v = true <-> structure k v.
Proof.
  destruct k; simpl; try apply guard_tagged.
  - unfold isWsSlotEvent. destruct v; cbn [as_record];
      try (split; [discriminate | intros (? & ? & [=] & _)]).
    rewrite andb_true_iff, is_string_literal_true, typeof_number_true.
    rewrite prop_defined by discriminate. split.
    + intros [Htype [n Hn]]. exists fields, n.
      rewrite prop_defined in Hn by discriminate. auto.
    + intros (r & n & [= <-] & Htype & Hn). split; [assumption|].
      exists n. apply prop_defined; [discriminate | assumption].
  - unfold isWsLeaderboardEvent. destruct v; cbn [as_record];
      try (split; [discriminate | intros (? & ? & [=] & _)]).
    rewrite andb_true_iff, is_string_literal_true, Array_isArray_true.
    rewrite prop_defined by discriminate. split.
    + intros [Htype [n Hn]]. exists fields, n.
      rewrite prop_defined in Hn by discriminate. auto.
    + intros (r & n & [= <-] & Htype & Hn). split; [assumption|].
      exists n. apply prop_defined; [discriminate | assumption].
  - unfold isWsX402Event. destruct v; cbn [as_record];
      try (split; [discriminate | intros (? & ? & [=] & _)]).
    split.
    + destruct (prop fields "op") eqn:Hop; try discriminate.
      intros Hin. exists fields, s. apply prop_defined in Hop; [|discriminate].
      apply includes_In in Hin. auto.
    + intros (r & op & [= <-] & Hop & Hin).
      apply (prop_defined fields "op") in Hop; [|discriminate]. rewrite Hop.
      apply includes_In. exact Hin.
Qed.

Lemma guard_structure_false (k : variant) (v : value) :
  guard k v = false <-> ~ structure k v.
Proof.
  rewrite <- guard_structure. destruct (guard k v); split; congruence.
Qed.

(** [classify] picks the first variant, in the order of [precedence], whose
    guard accepts. *)
Lemma classify_first (v : value) (k : variant) :
  classify v = Some k <->
  guard k v = true /\ forall k', rank k' < rank k -> guard k' v = false.
Proof.
  split.
  - unfold classify, precedence. cbn [find guard].
    repeat match goal with
           | |- context [if ?g v then _ else _] => destruct (g v) eqn:?
           end;
      intros [= <-];
      (split; [cbn; assumption |];
       intros k' Hlt; destruct k'; cbn in Hlt |- *; first [assumption | lia]).
  - intros [Hk Hfirst].
    destruct k; unfold classify, precedence; cbn [find];
      repeat first
        [ rewrite Hk; reflexivity
        | match goal with
          | |- context [guard ?k' v] => rewrite (Hfirst k') by (cbn; lia)
          end ].
Qed.


(** The if-chain of the handler takes the branch of the classified variant. *)
Lemma onMessage_branch {platform : Platform} (cfg : Config) (renewUrl : string)
  (buf : frame) :
  onMessage cfg renewUrl buf
  = branch cfg renewUrl (classify (safeJsonParse buf)) (safeJsonParse buf).
Proof.
  unfold onMessage, classify, precedence. cbn [find guard].
  repeat match goal with
         | |- context [if ?g (safeJsonParse buf) then _ else _] =>
             destruct (g (safeJsonParse buf)) eqn:?
         end; reflexivity.
Qed.



Example status_before_lifecycle :
  classify (VObject [("type", VString "status"); ("now", VString "2026-01-01T00:00:00Z");
                     ("op", VString "hello")])
  = Some Status.
Proof. reflexivity. Qed.

(** ** Transaction summaries *)

Lemma includes_app (l : list string) (x y : string) :
  includes (l ++ [x]) y = includes l y || String.eqb y x.
Proof.
  unfold includes. rewrite existsb_app. simpl. rewrite orb_false_r. reflexivity.
Qed.

Lemma filter_filter (A : Type) (f g : A -> bool) (l : list A) :
  filter f (filter g l) = filter (fun x => g x && f x) l.
Proof.
  induction l as [|a l IH]; simpl; [reflexivity|].
  destruct (g a); simpl; [destruct (f a)|]; rewrite IH; reflexivity.
Qed.

(** Adding the elements of [l] to a set lists, after the elements already
    there, the new ones in the order of their first occurrence. *)
Lemma fold_Set_add (l : list string) (acc : StringSet) :
  fold_left Set_add l acc
  = acc ++ filter (fun y => negb (includes acc y)) (distinct l).
Proof.
  revert acc. induction l as [|x l IH]; intros acc; simpl.
  - symmetry. apply app_nil_r.
  - rewrite IH. unfold Set_add. destruct (includes acc x) eqn:Hx; simpl.
    + f_equal. rewrite filter_filter. apply filter_ext. intros y.
      destruct (String.eqb_spec y x) as [->|Hne]; simpl; [rewrite Hx|]; reflexivity.
    + rewrite <- app_assoc. simpl. do 2 f_equal. rewrite filter_filter.
      apply filter_ext. intros y. rewrite includes_app.
      destruct (String.eqb y x), (includes acc y); reflexivity.
Qed.

(** The guard [if (x.mint)] leaves the empty string out. *)
Lemma fold_add_mint (l : list string) (acc : StringSet) :
  fold_left add_mint l acc = fold_left Set_add (filter named l) acc.
Proof.
  revert acc. induction l as [|x l IH]; intros acc; simpl; [reflexivity|].
  unfold add_mint at 2, named at 1. destruct (String.eqb x ""); simpl; apply IH.
Qed.

Lemma fold_left_map (A B C : Type) (f : A -> B -> A) (g : C -> B) (l : list C) (a : A) :
  fold_left (fun acc x => f acc (g x)) l a = fold_left f (map g l) a.
Proof.
  revert a. induction l as [|x l IH]; intros a; simpl; [reflexivity | apply IH].
Qed.

Lemma fold_left_flat_map (A B C : Type) (f : A -> B -> A) (g : C -> list B)
  (l : list C) (a : A) :
  fold_left (fun acc x => fold_left f (g x) acc) l a = fold_left f (flat_map g l) a.
Proof.
  revert a. induction l as [|x l IH]; intros a; simpl; [reflexivity|].
  rewrite fold_left_app. apply IH.
Qed.

Lemma fold_left_pointwise (A B : Type) (f g : A -> B -> A) (l : list B) (a : A) :
  (forall acc x, f acc x = g acc x) -> fold_left f l a = fold_left g l a.
Proof.
  intros Hfg. revert a. induction l as [|x l IH]; intros a; simpl; [reflexivity|].
  rewrite Hfg. apply IH.
Qed.

Lemma collected_mints (l : list string) :
  fold_left add_mint l [] = distinct (filter named l).
Proof.
  rewrite fold_add_mint, fold_Set_add. cbn [app includes existsb negb].
  induction (distinct (filter named l)) as [|x t IH]; simpl; congruence.
Qed.

Lemma In_distinct (l : list string) (x : string) : In x (distinct l) <-> In x l.
Proof.
  induction l as [|a l IH]; simpl; [tauto|].
  rewrite filter_In, IH. destruct (String.eqb_spec x a) as [->|Hne]; simpl.
  - intuition.
  - intuition congruence.
Qed.

Lemma NoDup_filter (A : Type) (f : A -> bool) (l : list A) :
  NoDup l -> NoDup (filter f l).
Proof.
  induction 1 as [|a l Hnotin Hnodup IH]; simpl; [constructor|].
  destruct (f a); [constructor|]; try assumption.
  rewrite filter_In. tauto.
Qed.

Lemma NoDup_distinct (l : list string) : NoDup (distinct l).
Proof.
  induction l as [|a l IH]; simpl; constructor.
  - rewrite filter_In, String.eqb_refl. simpl. intros [_ H]. discriminate.
  - apply NoDup_filter. assumption.
Qed.

(** Reading a field of an object literal. *)
Ltac read_field := lazy [get prop lookup String.eqb Ascii.eqb Bool.eqb entry].

Lemma raw_summary_mints (event : RawTransactionEvent.t) :
  get (summarizeRawTransaction event) "mints"
  = strings (firstn 5 (distinct (filter named (raw_mints event)))).
Proof.
  unfold summarizeRawTransaction. read_field.
  unfold strings, slice0, raw_mints. do 3 f_equal.
  rewrite fold_left_map, collected_mints.
  destruct (RawTransactionEvent.tokenBalanceChanges event); reflexivity.
Qed.

Lemma enhanced_summary_mints (event : EnhancedTransactionEvent.t) :
  get (summarizeEnhancedTransaction event) "mints"
  = strings (firstn 5 (distinct (filter named (enhanced_mints event)))).
Proof.
  unfold summarizeEnhancedTransaction. read_field.
  unfold strings, slice0, enhanced_mints. do 3 f_equal.
  rewrite <- collected_mints, fold_left_app.
  rewrite <- (fold_left_map add_mint), <- (fold_left_flat_map add_mint).
  apply fold_left_pointwise. intros acc change.
  apply fold_left_map.
Qed.

(** C2. In summary mode the [mints] of a transaction summary are the
    distinct non-empty mints of the event (an empty mint string is skipped
    by the guard [if (x.mint)]), in the order of first encounter, cut to the
    first five; the summary also carries the signature, the slot, the
    commitment and the number of token transfers (enhanced) or of token
    balance changes (raw, 0 when the list is absent). *)
Theorem C2_summary_mints :
  (forall event : RawTransactionEvent.t,
     let s := summarizeRawTransaction event in
     get s "mints" = strings (firstn 5 (distinct (filter named (raw_mints event))))
     /\ get s "signature" = VString (RawTransactionEvent.signature event)
     /\ get s "slot" = VNumber (RawTransactionEvent.slot event)
     /\ get s "commitment" = VString (commitment_text (RawTransactionEvent.commitment event))
     /\ get s "tokenBalanceChanges"
        = VNumber (number_of_nat
            match RawTransactionEvent.tokenBalanceChanges event with
            | Some changes => List.length changes
            | None => 0
            end))
  /\ (forall event : EnhancedTransactionEvent.t,
        let s := summarizeEnhancedTransaction event in
        get s "mints" = strings (firstn 5 (distinct (filter named (enhanced_mints event))))
        /\ get s "signature" = VString (EnhancedTransactionEvent.signature event)
        /\ get s "slot" = VNumber (EnhancedTransactionEvent.slot event)
        /\ get s "commitment"
           = VString (commitment_text (EnhancedTransactionEvent.commitment event))
        /\ get s "tokenTransfers"
           = VNumber (number_of_nat
               (List.length (EnhancedTransactionEvent.tokenTransfers event))))
  /\ (forall mints : list string,
        let kept := firstn 5 (distinct (filter named mints)) in
        List.length kept <= 5 /\ NoDup kept
        /\ (forall m, In m kept -> In m mints /\ m <> ""))
  /\ distinct (filter named ["A"; "B"; "A"; "C"; "D"; "E"; "F"]) = ["A"; "B"; "C"; "D"; "E"; "F"]
  /\ get (summarizeRawTransaction (raw_event ["A"; "B"; "A"; "C"; "D"; "E"; "F"])) "mints"
     = strings ["A"; "B"; "C"; "D"; "E"].
Proof.
  split; [|split; [|split; [|split]]].
  - intros event s. split; [apply raw_summary_mints|]. repeat split.
  - intros event s. split; [apply enhanced_summary_mints|]. repeat split.
  - intros mints kept. split; [|split].
    + unfold kept. rewrite length_firstn. lia.
    + unfold kept. rewrite <- (firstn_skipn 5 (distinct (filter named mints))) at 1.
      pose proof (NoDup_distinct (filter named mints)) as Hnd.
      rewrite <- (firstn_skipn 5 (distinct (filter named mints))) in Hnd.
      apply NoDup_app_remove_r in Hnd. 
      rewrite firstn_skipn. exact Hnd.
    + intros m Hin. unfold kept in Hin.
      assert (Hd : In m (distinct (filter named mints))).
      { rewrite <- (firstn_skipn 5 (distinct (filter named mints))).
        apply in_or_app. left. exact Hin. }
      apply In_distinct, filter_In in Hd. destruct Hd as [Hm Hnamed]. split; [assumption|].
      intros ->. discriminate Hnamed.
  - reflexivity.
  - reflexivity.
Qed.

(** An event whose first balance change has the empty string as its mint:
    the summary leaves that mint out, although it is one of the distinct
    mints of the event. *)
Lemma C2_unnamed_mint_left_out :
  raw_mints (raw_event [""; "A"]) = [""; "A"]
  /\ get (summarizeRawTransaction (raw_event [""; "A"])) "mints" = strings ["A"]
  /\ get (summarizeRawTransaction (raw_event [""; "A"])) "mints"
     <> strings (firstn 5 (distinct (raw_mints (raw_event [""; "A"])))).
Proof.
  split; [reflexivity|]. split; [reflexivity|]. discriminate.
Qed.

(** ** Session acquisition *)

Lemma schema_endpoint (data : value) :
  isWs402StreamSchema data = true ->
  exists endpoint, get data "websocketEndpoint" = VString endpoint.
Proof.
  unfold isWs402StreamSchema. destruct data; cbn [as_record]; try discriminate.
  destruct (negb (is_string_literal (prop fields "protocol") "ws402")); [discriminate|].
  destruct (negb (is_string_literal (prop fields "version") "1")); [discriminate|].
  cbn [get]. unfold isString.
  destruct (typeof_string (prop fields "websocketEndpoint")) eqn:Hs; [|discriminate].
  intros _. apply typeof_string_true. exact Hs.
Qed.

(** Evaluating a procedure whose awaited outcomes are known. *)
Ltac evaluate :=
  cbn [run bind try_catch emit result trace final_token settle call logInfo logWarn
       ws_send currentToken set_currentToken sleep when negb andb orb
       await_fetchWithPayment await_fetch await_json await_createPaymentPayload].

Section Acquisition.

Context {platform : Platform}.
Variables (cfg : Config) (httpBase : string) (w : world) (tok : string).
Variables (url : string) (resp : Response) (data : value) (endpoint : string).

Hypothesis schema_url : URL_resolve (X402_SCHEMA_PATH cfg) httpBase = Returned url.
Hypothesis fetched :
  w (FetchWithPayment url {| method := "GET"; headers := []; body := None |}) = Returned resp.
Hypothesis resp_ok : ok resp = true.
Hypothesis resp_json : w (ResponseJson resp) = Returned data.
Hypothesis valid_shape : isWs402StreamSchema data = true.
Hypothesis websocketEndpoint : get data "websocketEndpoint" = VString endpoint.

Lemma schema_request_result :
  result (run w (requestWs402Schema cfg httpBase) tok)
  = if String.eqb (parseTokenFromWsUrl endpoint) ""
    then Rejects (Error "x402 schema missing token")
    else Completed {| wsUrl := endpoint; token := parseTokenFromWsUrl endpoint;
                      streamId := the_string (get (get data "stream") "id") |}.
Proof.
  unfold requestWs402Schema. rewrite schema_url. evaluate.
  rewrite fetched. evaluate. rewrite resp_ok. evaluate.
  rewrite resp_json. evaluate. rewrite valid_shape. evaluate.
  rewrite websocketEndpoint. cbn [the_string].
  destruct (String.eqb (parseTokenFromWsUrl endpoint) ""); reflexivity.
Qed.

End Acquisition.

(** C3. When the schema response passes the shape validation, the session
    token is the value [searchParams.get('t')] of its [websocketEndpoint]
    whenever that value is a non-empty string; when the endpoint has no [t],
    an empty [t], or is not a URL, the extracted token is the empty string
    and the request rejects with [x402 schema missing token] instead of
    returning a descriptor. *)
Theorem C3_session_token {platform : Platform} (cfg : Config) (httpBase : string)
  (w : world) (tok url : string) (resp : Response) (data : value) (endpoint : string) :
  URL_resolve (X402_SCHEMA_PATH cfg) httpBase = Returned url ->
  w (FetchWithPayment url {| method := "GET"; headers := []; body := None |})
    = Returned resp ->
  ok resp = true ->
  w (ResponseJson resp) = Returned data ->
  isWs402StreamSchema data = true ->
  get data "websocketEndpoint" = VString endpoint ->
  let acquired := result (run w (requestWs402Schema cfg httpBase) tok) in
  (forall parsed t,
     URL_new endpoint = Returned parsed ->
     searchParams_get "t" (searchParams parsed) = Some t ->
     t <> "" ->
     parseTokenFromWsUrl endpoint = t
     /\ acquired = Completed {| wsUrl := endpoint; token := t;
                               streamId := the_string (get (get data "stream") "id") |})
  /\ ((exists e, URL_new endpoint = Threw e)
      \/ (exists parsed,
            URL_new endpoint = Returned parsed
            /\ (searchParams_get "t" (searchParams parsed) = None
                \/ searchParams_get "t" (searchParams parsed) = Some "")) ->
      parseTokenFromWsUrl endpoint = ""
      /\ acquired = Rejects (Error "x402 schema missing token")).
Proof.
  intros Hurl Hfetch Hok Hjson Hshape Hendpoint acquired.
  assert (Hres := schema_request_result cfg httpBase w tok Hurl Hfetch Hok Hjson Hshape
                    Hendpoint).
  fold acquired in Hres. split.
  - intros parsed t Hparsed Ht Hne.
    assert (Htoken : parseTokenFromWsUrl endpoint = t).
    { unfold parseTokenFromWsUrl. rewrite Hparsed, Ht. reflexivity. }
    split; [exact Htoken|]. rewrite Hres, Htoken.
    destruct (String.eqb_spec t ""); [contradiction | reflexivity].
  - intros Hnone.
    assert (Htoken : parseTokenFromWsUrl endpoint = "").
    { unfold parseTokenFromWsUrl.
      destruct Hnone as [[e He] | [parsed [Hparsed [Ht | Ht]]]].
      - rewrite He. reflexivity.
      - rewrite Hparsed, Ht. reflexivity.
      - rewrite Hparsed, Ht. reflexivity. }
    split; [exact Htoken|]. rewrite Hres, Htoken. reflexivity.
Qed.

Lemma C3_session_token_witness :
  parseTokenFromWsUrl (platform := sample_platform) sample_endpoint = "abc123"
  /\ result
       (run (uniform_world (Returned (response 200)) (Returned sample_schema)
               (Threw (Error "unused")))
          (requestWs402Schema (platform := sample_platform) (sample_cfg http full)
             "https://x402.atomicstream.net") "")
     = Completed {| wsUrl := sample_endpoint; token := "abc123";
                    streamId := "mempool-sniff" |}.
Proof.
  refine (proj1
    (@C3_session_token sample_platform (sample_cfg http full)
       "https://x402.atomicstream.net"
       (uniform_world (Returned (response 200)) (Returned sample_schema)
          (Threw (Error "unused")))
       "" "https://x402.atomicstream.net/v1/schema/stream/mempool-sniff"
       (response 200) sample_schema sample_endpoint
       eq_refl eq_refl eq_refl eq_refl eq_refl eq_refl)
    {| pathname := "/ws"; searchParams := [("t", "abc123")] |} "abc123"
    eq_refl eq_refl _).
  discriminate.
Defined.

(** ** The [open] handler *)

(** C8. When the socket opens the client sends, in this order, one
    [setOptions] with the six output options, one [setAccounts] exactly when
    accounts are watched, one [setPrograms] exactly when programs are
    watched, and one [getState]; with both watchlists empty it logs one
    warning, and in every case the handler completes without awaiting. *)
Theorem C8_open_sequence (cfg : Config) (w : world) (tok : string) :
  let r := run w (onOpen cfg) tok in
  sent (trace r)
  = [VObject [("op", VString "setOptions");
              ("includeAccounts", VBool (INCLUDE_ACCOUNTS cfg));
              ("includeTokenBalanceChanges", VBool (INCLUDE_TOKEN_BALANCE_CHANGES cfg));
              ("includeLogs", VBool (INCLUDE_LOGS cfg));
              ("includeInstructions", VBool (INCLUDE_INSTRUCTIONS cfg));
              ("eventFormat", VString (format_text (EVENT_FORMAT cfg)));
              ("filterTokenBalances", VBool (FILTER_TOKEN_BALANCES cfg))]]
    ++ match WATCH_ACCOUNTS cfg with
       | [] => []
       | _ :: _ =>
           [VObject [("op", VString "setAccounts");
                     ("accounts", strings (WATCH_ACCOUNTS cfg))]]
       end
    ++ match WATCH_PROGRAMS cfg with
       | [] => []
       | _ :: _ =>
           [VObject [("op", VString "setPrograms");
                     ("programs", strings (WATCH_PROGRAMS cfg))]]
       end
    ++ [VObject [("op", VString "getState")]]
  /\ warnings (trace r)
     = match WATCH_ACCOUNTS cfg, WATCH_PROGRAMS cfg with
       | [], [] => ["no watchlists configured (WATCH_ACCOUNTS/WATCH_PROGRAMS empty)"]
       | _, _ => []
       end
  /\ requests (trace r) = []
  /\ final_token r = tok
  /\ result r = Completed tt.
Proof.
  unfold onOpen. destruct (WATCH_ACCOUNTS cfg), (WATCH_PROGRAMS cfg); repeat split.
Qed.

(** ** Transaction events in the [message] handler *)






(** ** Renewal *)

Lemma is_trigger_lifecycle (buf : frame) :
  is_trigger buf = true ->
  classify (safeJsonParse buf) = Some Lifecycle
  /\ (is_string_literal (get (safeJsonParse buf) "op") "renewal_reminder"
      || is_string_literal (get (safeJsonParse buf) "op") "payment_required") = true.
Proof.
  unfold is_trigger. destruct (classify (safeJsonParse buf)) as [[]|]; try discriminate.
  auto.
Qed.

Lemma onMessage_trigger {platform : Platform} (cfg : Config) (renewUrl : string)
  (buf : frame) :
  is_trigger buf = true ->
  onMessage cfg renewUrl buf
  = Log info "client" "ws event" (Some (VObject [("op", get (safeJsonParse buf) "op")]))
      (renew cfg renewUrl).
Proof.
  intros Htrigger. apply is_trigger_lifecycle in Htrigger as [Hclass Hop].
  rewrite onMessage_branch, Hclass. cbn [branch]. unfold onX402Event. rewrite Hop.
  reflexivity.
Qed.

Lemma is_trigger_iff (buf : frame) :
  is_trigger buf = true <->
  exists r, buf = JsonText (VObject r)
            /\ (forall k, rank k < rank Lifecycle -> ~ structure k (VObject r))
            /\ (lookup "op" r = Some (VString "renewal_reminder")
                \/ lookup "op" r = Some (VString "payment_required")).
Proof.
  split.
  - intros Htrigger. apply is_trigger_lifecycle in Htrigger as [Hclass Hop].
    apply classify_first in Hclass as [Hguard Hfirst].
    destruct buf as [decoded|]; cbn [safeJsonParse] in *; [|discriminate Hguard].
    destruct decoded; try discriminate Hguard. exists fields. split; [reflexivity|]. split.
    + intros k Hk. apply guard_structure_false. auto.
    + cbn [get] in Hop. apply orb_true_iff in Hop.
      rewrite !is_string_literal_true, !prop_defined in Hop by discriminate. exact Hop.
  - intros (r & -> & Hfirst & Hop). unfold is_trigger. cbn [safeJsonParse get].
    assert (Hclass : classify (VObject r) = Some Lifecycle).
    { apply classify_first. split.
      - apply guard_structure. cbn [structure]. destruct Hop as [Hop | Hop];
          eexists r, _; (split; [reflexivity|]); (split; [exact Hop|]); simpl; auto.
      - intros k Hk. apply guard_structure_false. auto. }
    rewrite Hclass. apply orb_true_iff.
    rewrite !is_string_literal_true, !prop_defined by discriminate. exact Hop.
Qed.

Lemma run_bind (A B : Type) (w : world) (p : proc A) (f : A -> proc B) (tok : string) :
  run w (bind p f) tok = then_run (run w p tok) (fun a t => run w (f a) t).
Proof.
  revert tok. induction p as [a|e| |level scope message m k IH|data k IH|k IH|t k IH|op k IH];
    intros tok; cbn [bind run].
  - unfold then_run. cbn. destruct (run w (f a) tok). reflexivity.
  - reflexivity.
  - reflexivity.
  - rewrite IH. unfold then_run, emit. cbn. destruct (result (run w k tok)); reflexivity.
  - rewrite IH. unfold then_run, emit. cbn. destruct (result (run w k tok)); reflexivity.
  - apply IH.
  - rewrite IH. unfold then_run, emit. cbn. destruct (result (run w k t)); reflexivity.
  - rewrite IH. unfold then_run, emit. cbn.
    destruct (result (run w (k (w op)) tok)); reflexivity.
Qed.

Lemma run_try_catch (A : Type) (w : world) (body : proc A) (handler : exn -> proc A)
  (tok : string) :
  run w (try_catch body handler) tok
  = catch_run (run w body tok) (fun e t => run w (handler e) t).
Proof.
  revert tok.
  induction body as [a|e| |level scope message m k IH|data k IH|k IH|t k IH|op k IH];
    intros tok; cbn [try_catch run].
  - reflexivity.
  - unfold catch_run. cbn. destruct (run w (handler e) tok). reflexivity.
  - reflexivity.
  - rewrite IH. unfold catch_run, emit. cbn. destruct (run w k tok) as [? ? []]; reflexivity.
  - rewrite IH. unfold catch_run, emit. cbn. destruct (run w k tok) as [? ? []]; reflexivity.
  - apply IH.
  - rewrite IH. unfold catch_run, emit. cbn. destruct (run w k t) as [? ? []]; reflexivity.
  - rewrite IH. unfold catch_run, emit. cbn.
    destruct (run w (k (w op)) tok) as [? ? []]; reflexivity.
Qed.

(** [main] hands the socket handlers the token of the schema response and
    the renewal URL built from the base URL, the stream id of the schema
    and the version in the schema path. *)
Lemma main_completed {platform : Platform} (cfg : Config) (w : world) (t0 : string)
  (connection : Connection) :
  result (run w (main cfg) t0) = Completed connection ->
  exists schema,
    result (run w (requestWs402Schema cfg (HTTP_BASE cfg)) t0) = Completed schema
    /\ final_token (run w (main cfg) t0) = token schema
    /\ socketUrl connection = wsUrl schema
    /\ buildRenewUrl (HTTP_BASE cfg) (streamId schema)
         (parseSchemaVersion (X402_SCHEMA_PATH cfg))
       = Returned (renewUrl connection).
Proof.
  remember (run w (main cfg) t0) as started eqn:Hstarted.
  unfold main in Hstarted. unfold logInfo at 1 in Hstarted. cbn [bind run] in Hstarted.
  rewrite run_bind in Hstarted. unfold then_run in Hstarted.
  destruct (run w (requestWs402Schema cfg (HTTP_BASE cfg)) t0) as [tr ft [schema|e|]];
    cbn [result final_token trace] in Hstarted; subst started; try discriminate.
  unfold set_currentToken. cbn [bind run emit result final_token].
  destruct (buildRenewUrl (HTTP_BASE cfg) (streamId schema)
              (parseSchemaVersion (X402_SCHEMA_PATH cfg))) as [url|e] eqn:Hurl;
    cbn; [|discriminate].
  intros [= <-]. exists schema. repeat split; try reflexivity. exact Hurl.
Qed.

(** The [catch] of the renewal turns a rejection of the attempt into the
    warning and the back-off, and the handler completes. *)
Lemma run_renew {platform : Platform} (cfg : Config) (renewUrl : string) (w : world)
  (tok : string) :
  run w (renew cfg renewUrl) tok
  = let a := run w (attempt cfg renewUrl) tok in
    match result a with
    | Rejects e =>
        {| trace := trace a ++ failure_tail (exn_message e);
           final_token := final_token a;
           result := Completed tt |}
    | _ => a
    end.
Proof.
  unfold renew. rewrite run_try_catch. unfold catch_run, attempt.
  destruct (result (run w match RENEW_METHOD cfg with
                          | http => renew_http renewUrl
                          | inband => renew_inband renewUrl
                          end tok)); reflexivity.
Qed.

Lemma run_trigger {platform : Platform} (cfg : Config) (renewUrl : string) (w : world)
  (tok : string) (buf : frame) :
  is_trigger buf = true ->
  run w (onMessage cfg renewUrl buf) tok
  = emit (Logged info "client" "ws event"
            (Some (VObject [("op", get (safeJsonParse buf) "op")])))
      (run w (renew cfg renewUrl) tok).
Proof.
  intros Htrigger. rewrite (onMessage_trigger _ _ _ Htrigger). reflexivity.
Qed.

(** Unfolding a renewal attempt up to its next awaited outcome. *)
Ltac renewing :=
  unfold attempt, renew_http, renew_inband, httpRenew, inbandRenewChallenge;
  evaluate; unfold renew_init, json_headers, entry; evaluate.

Ltac given H := rewrite H; evaluate.

(** Case analysis on every outcome the environment can choose. *)
Ltac explore w :=
  repeat (evaluate;
          match goal with
          | |- context [settle (w ?op)] => destruct (w op) as [?|?] eqn:?
          | |- context [match w ?op with _ => _ end] => destruct (w op) as [?|?] eqn:?
          | |- context [call (getPaymentRequiredResponse ?h ?d)] =>
              destruct (getPaymentRequiredResponse h d) as [?|?] eqn:?
          | |- context [if ?b then _ else _] => destruct b eqn:?
          end);
  evaluate.

(** An attempt that rejects has sent nothing and has left [currentToken]
    as it was; an attempt is never outside the declared types. *)
Lemma attempt_rejected {platform : Platform} (cfg : Config) (renewUrl : string)
  (w : world) (tok : string) :
  let a := run w (attempt cfg renewUrl) tok in
  result a <> Unspecified
  /\ (forall e, result a = Rejects e ->
        sent (trace a) = [] /\ assignments (trace a) = [] /\ final_token a = tok)
  /\ (result a = Completed tt -> renewals_sent (trace a) = 1).
Proof.
  destruct (RENEW_METHOD cfg) eqn:Hmethod; unfold attempt; rewrite Hmethod.
  - unfold renew_http, httpRenew. explore w;
      (cbn [result trace final_token emit]; split; [discriminate|]; split;
       [ intros err He; first [discriminate He | repeat split]
       | intros Hc; first [discriminate Hc | reflexivity] ]).
  - unfold renew_inband, inbandRenewChallenge. explore w;
      (cbn [result trace final_token emit]; split; [discriminate|]; split;
       [ intros err He; first [discriminate He | repeat split]
       | intros Hc; first [discriminate Hc | reflexivity] ]).
Qed.

Lemma fails_softly_intro (tok message : string) (e : event) (a : run_result unit) :
  sent (trace a) = [] -> assignments (trace a) = [] -> final_token a = tok ->
  match e with Sent _ | Assigned _ => False | _ => True end ->
  fails_softly tok message
    (emit e {| trace := trace a ++ failure_tail message;
               final_token := final_token a;
               result := Completed tt |}).
Proof.
  intros Hsent Hassigned Htok He. exists (e :: trace a). cbn [emit trace final_token result].
  repeat split; try assumption.
  - destruct e; try contradiction; exact Hsent.
  - destruct e; try contradiction; exact Hassigned.
Qed.

(** What the handler does with a trigger, from what the attempt does. *)
Lemma trigger_outcome {platform : Platform} (cfg : Config) (renewUrl : string)
  (w : world) (tok : string) (buf : frame) :
  is_trigger buf = true ->
  let r := run w (onMessage cfg renewUrl buf) tok in
  let a := run w (attempt cfg renewUrl) tok in
  (forall e, result a = Rejects e -> fails_softly tok (exn_message e) r)
  /\ (result a = Completed tt ->
      trace r = Logged info "client" "ws event"
                  (Some (VObject [("op", get (safeJsonParse buf) "op")])) :: trace a
      /\ final_token r = final_token a /\ result r = Completed tt).
Proof.
  intros Htrigger r a. unfold r. rewrite (run_trigger _ _ _ _ _ Htrigger), run_renew.
  fold a. cbv zeta. split.
  - intros e He. rewrite He.
    destruct (attempt_rejected cfg renewUrl w tok) as (_ & Hrej & _).
    destruct (Hrej e He) as (Hsent & Hassigned & Htok).
    apply fails_softly_intro; trivial.
  - intros Hc. rewrite Hc. cbn [emit trace final_token result]. auto.
Qed.

Lemma isRenewResponse_fields (fields : list (string * value)) :
  isRenewResponse (VObject fields) = true <->
  exists t e n, lookup "token" fields = Some (VString t)
                /\ lookup "expiresAt" fields = Some (VString e)
                /\ lookup "sliceSeconds" fields = Some (VNumber n).
Proof.
  unfold isRenewResponse. cbn [as_record].
  rewrite !andb_true_iff, !typeof_string_true, typeof_number_true. split.
  - intros [[[t Ht] [e He]] [n Hn]]. exists t, e, n.
    rewrite prop_defined in Ht, He, Hn by discriminate. auto.
  - intros (t & e & n & Ht & He & Hn).
    repeat split; eexists; apply prop_defined; try eassumption; discriminate.
Qed.

(** C6. Direct renewal POSTs [{ token: oldToken }] through the
    payment-wrapping fetch to the renewal URL (which [main] builds from the
    base URL, the stream id and the schema version); a rejected fetch, a
    status outside 200..299, a body that is not JSON or that lacks a string
    [token], a string [expiresAt] or a numeric [sliceSeconds] ends as a
    caught renewal error with [currentToken] unchanged; on success
    [currentToken] becomes the new token and one [renew_token] message
    carrying it is sent. *)
Theorem C6_http_renewal {platform : Platform} (cfg : Config) (renewUrl : string)
  (w : world) (tok : string) (buf : frame) :
  RENEW_METHOD cfg = http ->
  is_trigger buf = true ->
  let r := run w (onMessage cfg renewUrl buf) tok in
  let post := FetchWithPayment renewUrl (renewal_post tok) in
  hd_error (requests (trace r)) = Some post
  /\ (forall resp data newToken,
        w post = Returned resp -> ok resp = true ->
        w (ResponseJson resp) = Returned data -> isRenewResponse data = true ->
        get data "token" = VString newToken ->
        sent (trace r)
        = [VObject [("op", VString "renew_token"); ("token", VString newToken)]]
        /\ assignments (trace r) = [newToken]
        /\ final_token r = newToken
        /\ warnings (trace r) = []
        /\ result r = Completed tt)
  /\ (forall e, w post = Threw e -> fails_softly tok (exn_message e) r)
  /\ (forall resp,
        w post = Returned resp -> ok resp = false ->
        fails_softly tok ("renew failed: " ++ decimal (status resp)) r)
  /\ (forall resp e,
        w post = Returned resp -> ok resp = true -> w (ResponseJson resp) = Threw e ->
        fails_softly tok (exn_message e) r)
  /\ (forall resp data,
        w post = Returned resp -> ok resp = true ->
        w (ResponseJson resp) = Returned data -> isRenewResponse data = false ->
        fails_softly tok "renew response shape invalid" r)
  /\ (forall fields,
        isRenewResponse (VObject fields) = true <->
        exists t e n, lookup "token" fields = Some (VString t)
                      /\ lookup "expiresAt" fields = Some (VString e)
                      /\ lookup "sliceSeconds" fields = Some (VNumber n))
  /\ (forall base stream version,
        buildRenewUrl base stream version
        = URL_resolve ("/" ++ version_text version ++ "/renew/stream/" ++ stream) base)
  /\ (forall w0 connection,
        result (run w0 (main cfg) "") = Completed connection ->
        exists schema url,
          result (run w0 (requestWs402Schema cfg (HTTP_BASE cfg)) "") = Completed schema
          /\ buildRenewUrl (HTTP_BASE cfg) (streamId schema)
               (parseSchemaVersion (X402_SCHEMA_PATH cfg))
             = Returned url
          /\ connection = {| socketUrl := wsUrl schema; renewUrl := url |}).
Proof.
  intros Hmethod Htrigger r post. subst post. unfold renewal_post.
  destruct (trigger_outcome cfg renewUrl w tok buf Htrigger) as [Hfail Hdone].
  fold r in Hfail, Hdone.
  assert (Hrejects : forall e,
             result (run w (attempt cfg renewUrl) tok) = Rejects e ->
             fails_softly tok (exn_message e) r) by exact Hfail.
  split; [|split; [|split; [|split; [|split; [|split; [|split; [|split]]]]]]].
  - unfold r. rewrite (run_trigger _ _ _ _ _ Htrigger), run_renew.
    unfold attempt. rewrite Hmethod. unfold renew_http, httpRenew.
    explore w; reflexivity.
  - intros resp data newToken Hfetch Hok Hjson Hshape Htoken.
    unfold r. rewrite (run_trigger _ _ _ _ _ Htrigger), run_renew.
    unfold attempt. rewrite Hmethod. renewing.
    given Hfetch. given Hok. given Hjson. given Hshape. rewrite Htoken.
    repeat split.
  - intros e Hfetch. apply Hrejects.
    unfold attempt. rewrite Hmethod. renewing. given Hfetch. reflexivity.
  - intros resp Hfetch Hok. apply (Hrejects (Error _)).
    unfold attempt. rewrite Hmethod. renewing. given Hfetch. given Hok.
    reflexivity.
  - intros resp e Hfetch Hok Hjson. apply Hrejects.
    unfold attempt. rewrite Hmethod. renewing. given Hfetch. given Hok.
    given Hjson. reflexivity.
  - intros resp data Hfetch Hok Hjson Hshape. apply (Hrejects (Error _)).
    unfold attempt. rewrite Hmethod. renewing. given Hfetch. given Hok.
    given Hjson. given Hshape. reflexivity.
  - apply isRenewResponse_fields.
  - reflexivity.
  - intros w0 connection Hmain.
    destruct (main_completed cfg w0 "" Hmain) as (schema & Hschema & _ & Hsocket & Hurl).
    destruct connection as [socket url]. cbn in Hsocket, Hurl. subst socket.
    exists schema, url. repeat split; assumption.
Qed.

(** ** Properties of every path, and the event loop *)

Section AlwaysFacts.

Variable tokens : string -> Prop.
Variable awaits : request -> Prop.
Variable sends : value -> Prop.
Variable writes : string -> Prop.

Lemma always_bind (throws : exn -> Prop) (A B : Type) (p : proc A) (f : A -> proc B) :
  always tokens throws awaits sends writes p ->
  (forall a, always tokens throws awaits sends writes (f a)) ->
  always tokens throws awaits sends writes (bind p f).
Proof.
  intros Hp Hf. induction Hp; cbn [bind]; try (constructor; auto); auto.
Qed.

(** A [catch] lets through what its handler lets through. *)
Lemma always_try_catch (inside outside : exn -> Prop) (A : Type) (body : proc A)
  (handler : exn -> proc A) :
  always tokens inside awaits sends writes body ->
  (forall e, inside e -> always tokens outside awaits sends writes (handler e)) ->
  always tokens outside awaits sends writes (try_catch body handler).
Proof.
  intros Hbody Hhandler. induction Hbody; cbn [try_catch]; try (constructor; auto); auto.
Qed.

Variable throws : exn -> Prop.

Lemma note_allowed (e : event) (st : loop) :
  event_allowed throws awaits sends writes e ->
  loop_allowed tokens throws awaits sends writes st ->
  loop_allowed tokens throws awaits sends writes (note e st).
Proof.
  intros He (Htok & Htasks & Hhist). repeat split; cbn; try assumption.
  apply Forall_app. split; [assumption | constructor; [assumption | constructor]].
Qed.

Lemma advance_allowed (p : proc unit) (st : loop) :
  always tokens throws awaits sends writes p ->
  loop_allowed tokens throws awaits sends writes st ->
  loop_allowed tokens throws awaits sends writes (drop_promise (advance p st)).
Proof.
  intros Hp. revert st. induction Hp; intros st Hst; cbn [advance].
  - exact Hst.
  - apply note_allowed; assumption.
  - apply note_allowed; [exact I | assumption].
  - apply IHHp. apply note_allowed; [exact I | assumption].
  - apply IHHp. apply note_allowed; assumption.
  - apply H0; [apply Hst | assumption].
  - apply IHHp. destruct Hst as (Htok & Htasks & Hhist). repeat split; cbn; try assumption.
    apply Forall_app. split; [assumption | constructor; [assumption | constructor]].
  - destruct Hst as (Htok & Htasks & Hhist). unfold drop_promise. cbn.
    repeat split; cbn; try assumption.
    + apply Forall_app. split; [assumption|]. constructor; [|constructor].
      split; assumption.
    + apply Forall_app. split; [assumption | constructor; [assumption | constructor]].
Qed.

Lemma Forall_remove_nth (A : Type) (P : A -> Prop) (i : nat) (l : list A) :
  Forall P l -> Forall P (remove_nth i l).
Proof.
  intros Hl. revert i. induction Hl as [|x l Hx Hl IH]; intros i; destruct i; cbn;
    try constructor; auto.
Qed.

Lemma react_allowed {platform : Platform} (cfg : Config) (renewUrl : string)
  (st : loop) (o : occurrence) :
  (forall buf, always tokens throws awaits sends writes (onMessage cfg renewUrl buf)) ->
  loop_allowed tokens throws awaits sends writes st ->
  loop_allowed tokens throws awaits sends writes (react cfg renewUrl st o).
Proof.
  intros Hhandler Hst. destruct o as [buf | i w]; cbn [react].
  - apply advance_allowed; [apply Hhandler | assumption].
  - destruct (nth_error (tasks st) i) as [t|] eqn:Hnth; [|assumption].
    destruct Hst as (Htok & Htasks & Hhist).
    apply advance_allowed.
    + apply nth_error_In in Hnth. rewrite Forall_forall in Htasks.
      apply (Htasks t Hnth).
    + repeat split; cbn; try assumption. apply Forall_remove_nth. assumption.
Qed.

Lemma run_loop_allowed {platform : Platform} (cfg : Config) (renewUrl tok : string)
  (schedule : list occurrence) :
  (forall buf, always tokens throws awaits sends writes (onMessage cfg renewUrl buf)) ->
  tokens tok ->
  loop_allowed tokens throws awaits sends writes (run_loop cfg renewUrl tok schedule).
Proof.
  intros Hhandler Htok. unfold run_loop.
  assert (Hstart : loop_allowed tokens throws awaits sends writes (start tok)).
  { repeat split; cbn; [assumption | constructor | constructor]. }
  revert Hstart. generalize (start tok).
  induction schedule as [|o schedule IH]; intros st Hst; cbn [fold_left].
  - assumption.
  - apply IH. apply react_allowed; assumption.
Qed.

End AlwaysFacts.

(** Walking every path of a handler. *)
Ltac walk :=
  repeat (cbv beta delta [logInfo logWarn ws_send currentToken set_currentToken sleep
                           when await_fetchWithPayment await_fetch await_json
                           await_createPaymentPayload];
          cbn [bind try_catch settle call negb];
          match goal with
          | |- always _ _ _ _ _ (Return _) => apply always_return
          | |- always _ _ _ _ _ IllTyped => apply always_illtyped
          | |- always _ _ _ _ _ (Throw _) => apply always_throw
          | |- always _ _ _ _ _ (Log _ _ _ _ _) => apply always_log
          | |- always _ _ _ _ _ (WsSend _ _) => apply always_send
          | |- always _ _ _ _ _ (ReadToken _) => apply always_read; intros ? ?
          | |- always _ _ _ _ _ (WriteToken _ _) => apply always_write
          | |- always _ _ _ _ _ (Await _ _) => apply always_await; [|intros ?]
          | |- context [settle ?x] => destruct x
          | |- context [call ?x] => destruct x
          | |- context [match ?x with Returned _ => _ | Threw _ => _ end] => destruct x
          | |- context [if ?b then _ else _] => destruct b
          | |- always _ _ _ _ _ (match ?x with _ => _ end) => destruct x
          end).



Lemma isPaymentRequired_fields (fields : list (string * value)) :
  isPaymentRequired (VObject fields) = true <->
  exists first rest, lookup "accepts" fields = Some (VArray (first :: rest)).
Proof.
  unfold isPaymentRequired, prop. cbn [as_record].
  destruct (lookup "accepts" fields) as [[| | | | |[|first rest]|]|]; cbn; split;
    try discriminate; try (intros (? & ? & [=])); eauto.
Qed.

(** C7. In-band renewal POSTs [{ token: oldToken }] with the plain [fetch]
    to the renewal URL; a status other than 402, a payment-required
    response that is rejected by the x402 parser or has no non-empty
    [accepts] array, a signer that fails, or a first entry of [accepts]
    that is falsy each end as a caught renewal error; otherwise one
    [renew_inband] message is sent, carrying the first entry of [accepts]
    and the payload of the signer. *)
Theorem C7_inband_renewal {platform : Platform} (cfg : Config) (renewUrl : string)
  (w : world) (tok : string) (buf : frame) :
  RENEW_METHOD cfg = inband ->
  is_trigger buf = true ->
  let r := run w (onMessage cfg renewUrl buf) tok in
  let post := Fetch renewUrl (renewal_post tok) in
  hd_error (requests (trace r)) = Some post
  /\ (forall e, w post = Threw e -> fails_softly tok (exn_message e) r)
  /\ (forall resp,
        w post = Returned resp -> status resp <> 402 ->
        fails_softly tok ("expected 402 challenge, got " ++ decimal (status resp)) r)
  /\ (forall resp,
        w post = Returned resp -> status resp = 402 ->
        let decoded :=
          match w (ResponseJson resp) with
          | Returned v => v
          | Threw _ => VUndefined
          end in
        (forall e,
           getPaymentRequiredResponse (headers_get resp) decoded = Threw e ->
           fails_softly tok (exn_message e) r)
        /\ (forall paymentRequired,
              getPaymentRequiredResponse (headers_get resp) decoded
                = Returned paymentRequired ->
              (isPaymentRequired paymentRequired = false ->
               fails_softly tok "payment-required response shape invalid" r)
              /\ (isPaymentRequired paymentRequired = true ->
                  let selected := first_of (get paymentRequired "accepts") in
                  (forall e,
                     w (CreatePaymentPayload paymentRequired) = Threw e ->
                     fails_softly tok (exn_message e) r)
                  /\ (forall paymentPayload,
                        w (CreatePaymentPayload paymentRequired) = Returned paymentPayload ->
                        (truthy selected = false ->
                         fails_softly tok "payment-required missing accepts" r)
                        /\ (truthy selected = true ->
                            sent (trace r)
                            = [VObject [("op", VString "renew_inband");
                                        ("paymentRequirements", selected);
                                        ("paymentPayload", paymentPayload)]]
                            /\ assignments (trace r) = []
                            /\ final_token r = tok
                            /\ warnings (trace r) = []
                            /\ result r = Completed tt)))))
  /\ (forall fields,
        isPaymentRequired (VObject fields) = true <->
        exists first rest, lookup "accepts" fields = Some (VArray (first :: rest))).
Proof.
  intros Hmethod Htrigger r post. subst post. unfold renewal_post.
  destruct (trigger_outcome cfg renewUrl w tok buf Htrigger) as [Hrejects _].
  fold r in Hrejects.
  split; [|split; [|split; [|split]]].
  - unfold r. rewrite (run_trigger _ _ _ _ _ Htrigger), run_renew.
    unfold attempt. rewrite Hmethod. unfold renew_inband, inbandRenewChallenge.
    explore w; reflexivity.
  - intros e Hfetch. apply Hrejects.
    unfold attempt. rewrite Hmethod. renewing. given Hfetch. reflexivity.
  - intros resp Hfetch Hstatus. apply (Hrejects (Error _)).
    unfold attempt. rewrite Hmethod. renewing. given Hfetch.
    apply Nat.eqb_neq in Hstatus. given Hstatus. reflexivity.
  - intros resp Hfetch Hstatus.
    set (decoded := match w (ResponseJson resp) with
                    | Returned v => v
                    | Threw _ => VUndefined
                    end).
    assert (Hchallenge : Nat.eqb (status resp) 402 = true) by (apply Nat.eqb_eq; exact Hstatus).
    split.
    + intros e Hparse. apply Hrejects.
      unfold attempt. rewrite Hmethod. renewing. given Hfetch. given Hchallenge.
      fold decoded. destruct (w (ResponseJson resp)) eqn:Hjson; evaluate;
        unfold decoded in Hparse; rewrite Hparse; reflexivity.
    + intros paymentRequired Hparse.
      split; [|intros Hshape; set (selected := first_of (get paymentRequired "accepts"));
               split].
      * intros Hshape. apply (Hrejects (Error _)).
        unfold attempt. rewrite Hmethod. renewing. given Hfetch. given Hchallenge.
        destruct (w (ResponseJson resp)) eqn:Hjson; evaluate;
          unfold decoded in Hparse; rewrite Hparse; evaluate; given Hshape; reflexivity.
      * intros e Hsign. apply Hrejects.
        unfold attempt. rewrite Hmethod. renewing. given Hfetch. given Hchallenge.
        destruct (w (ResponseJson resp)) eqn:Hjson; evaluate;
          unfold decoded in Hparse; rewrite Hparse; evaluate; given Hshape;
          given Hsign; reflexivity.
      * intros paymentPayload Hsign. split.
        -- intros Hfalsy. apply (Hrejects (Error _)).
           unfold attempt. rewrite Hmethod. renewing. given Hfetch. given Hchallenge.
           destruct (w (ResponseJson resp)) eqn:Hjson; evaluate;
             unfold decoded in Hparse; rewrite Hparse; evaluate; given Hshape;
             given Hsign; fold selected; given Hfalsy; reflexivity.
        -- intros Htruthy. unfold r.
           rewrite (run_trigger _ _ _ _ _ Htrigger), run_renew.
           unfold attempt. rewrite Hmethod. renewing. given Hfetch. given Hchallenge.
           destruct (w (ResponseJson resp)) eqn:Hjson; evaluate;
             unfold decoded in Hparse; rewrite Hparse; evaluate; given Hshape;
             given Hsign; fold selected; given Htruthy; repeat split.
  - apply isPaymentRequired_fields.
Qed.


Lemma C6_http_renewal_witness :
  let r := run world_renewed
             (onMessage (platform := sample_platform) (sample_cfg http full) sample_renewUrl
                (lifecycle "renewal_reminder")) "tok1" in
  sent (trace r) = [VObject [("op", VString "renew_token"); ("token", VString "tok2")]]
  /\ final_token r = "tok2".
Proof.
  destruct (@C6_http_renewal sample_platform (sample_cfg http full) sample_renewUrl
              world_renewed "tok1" (lifecycle "renewal_reminder") eq_refl eq_refl)
    as (_ & Hsuccess & _).
  destruct (Hsuccess (response 200) (renewed_body "tok2") "tok2"
              eq_refl eq_refl eq_refl eq_refl eq_refl) as (Hsent & _ & Htoken & _).
  split; assumption.
Defined.

Lemma C7_inband_renewal_witness :
  sent (trace (run (world_challenge [sample_requirement] (Returned sample_payload))
                 (onMessage (platform := sample_platform) (sample_cfg inband full)
                    sample_renewUrl (lifecycle "payment_required")) "tok1"))
  = [VObject [("op", VString "renew_inband");
              ("paymentRequirements", sample_requirement);
              ("paymentPayload", sample_payload)]].
Proof.
  destruct (@C7_inband_renewal sample_platform (sample_cfg inband full) sample_renewUrl
              (world_challenge [sample_requirement] (Returned sample_payload)) "tok1"
              (lifecycle "payment_required") eq_refl eq_refl)
    as (_ & _ & _ & Hchallenge & _).
  destruct (Hchallenge (response 402) eq_refl eq_refl) as (_ & Hparsed).
  destruct (Hparsed (challenge [sample_requirement]) eq_refl) as (_ & Hshape).
  destruct (Hshape eq_refl) as (_ & Hsigned).
  destruct (Hsigned sample_payload eq_refl) as (_ & Hsent).
  exact (proj1 (Hsent eq_refl)).
Defined.

(** Two challenges whose [accepts] is not empty and which are not answered
    with [renew_inband]: one whose first entry is [null], whatever the
    signer does, and one for which the signer fails. *)
Lemma C7_challenge_not_answered :
  (isPaymentRequired (challenge [VNull; sample_requirement]) = true
   /\ forall signed : outcome value,
        let r := run (world_challenge [VNull; sample_requirement] signed)
                   (onMessage (platform := sample_platform) (sample_cfg inband full)
                      sample_renewUrl (lifecycle "payment_required")) "tok1" in
        sent (trace r) = []
        /\ trace r
           = [ Logged info "client" "ws event"
                 (Some (VObject [("op", VString "payment_required")])) ]
             ++ match signed with
                | Returned _ =>
                    [ Awaited (Fetch sample_renewUrl (renewal_post "tok1"));
                      Awaited (ResponseJson (response 402));
                      Logged info "client" "received inband challenge"
                        (Some (VObject [("accepts", VNumber (number_of_nat 2))]));
                      Logged info "client" "creating inband payment payload" None;
                      Awaited (CreatePaymentPayload (challenge [VNull; sample_requirement])) ]
                    ++ failure_tail "payment-required missing accepts"
                | Threw e =>
                    [ Awaited (Fetch sample_renewUrl (renewal_post "tok1"));
                      Awaited (ResponseJson (response 402));
                      Logged info "client" "received inband challenge"
                        (Some (VObject [("accepts", VNumber (number_of_nat 2))]));
                      Logged info "client" "creating inband payment payload" None;
                      Awaited (CreatePaymentPayload (challenge [VNull; sample_requirement])) ]
                    ++ failure_tail (exn_message e)
                end)
  /\ (isPaymentRequired (challenge [sample_requirement]) = true
      /\ let r := run (world_challenge [sample_requirement] (Threw (Error "signing failed")))
                    (onMessage (platform := sample_platform) (sample_cfg inband full)
                       sample_renewUrl (lifecycle "payment_required")) "tok1" in
         sent (trace r) = []
         /\ warnings (trace r) = ["renew error"]
         /\ result r = Completed tt).
Proof.
  split; split; try reflexivity.
  - intros [payload | e]; split; reflexivity.
  - cbv zeta. repeat split.
Qed.

(** ** Renewals in the event loop *)

Lemma sent_app (l1 l2 : list event) : sent (l1 ++ l2) = sent l1 ++ sent l2.
Proof. apply flat_map_app. Qed.

Lemma tasks_drop_promise (r : loop * fate) : tasks (drop_promise r) = tasks (fst r).
Proof. unfold drop_promise. destruct (snd r); reflexivity. Qed.

(** A handler call suspends at most once before it hands control back. *)
Lemma advance_tasks (p : proc unit) (st : loop) :
  List.length (tasks (fst (advance p st))) <= S (List.length (tasks st)).
Proof.
  revert st. induction p as [a|e| |level scope message m k IH|data k IH|k IH|t k IH|op k IH];
    intros st; cbn [advance fst]; try lia.
  - apply (IH (note _ st)).
  - apply (IH (note _ st)).
  - apply IH.
  - apply (IH (Build_loop t (tasks st) (history st ++ [Assigned t]))).
  - cbn. rewrite length_app. cbn. lia.
Qed.

Lemma length_remove_nth (A : Type) (i : nat) (l : list A) (x : A) :
  nth_error l i = Some x -> S (List.length (remove_nth i l)) = List.length l.
Proof.
  revert i. induction l as [|y l IH]; intros i Hnth; destruct i; cbn in *; try discriminate.
  - reflexivity.
  - f_equal. apply IH. assumption.
Qed.

(** A frame that is not a trigger is handled without awaiting. *)
Lemma other_frames {platform : Platform} (cfg : Config) (renewUrl : string) (buf : frame) :
  is_trigger buf = false ->
  (forall st, tasks (react cfg renewUrl st (Message buf)) = tasks st)
  /\ (forall w tok, sent (trace (run w (onMessage cfg renewUrl buf) tok)) = []).
Proof.
  intros Hother. unfold is_trigger in Hother. cbn [react].
  rewrite onMessage_branch.
  destruct (classify (safeJsonParse buf)) as [[]|]; cbn [branch];
    unfold onStatus, onTransaction, onAccount, onSlot, onTicker, onLeaderboard,
      onX402Event, onIgnored;
    try rewrite Hother;
    try (split; [intros st; rewrite tasks_drop_promise | intros w tok]; reflexivity).
  destruct (TX_LOG_MODE cfg);
    [destruct (isEnhancedTransactionEvent (safeJsonParse buf));
     [destruct (EnhancedTransactionEvent.decode (safeJsonParse buf))
     |destruct (RawTransactionEvent.decode (safeJsonParse buf))]|];
    (split; [intros st; rewrite tasks_drop_promise | intros w tok]; reflexivity).
Qed.

(** A trigger suspends its handler on the renewal request, whatever is
    already pending. *)
Lemma trigger_suspends {platform : Platform} (cfg : Config) (renewUrl : string)
  (st : loop) (buf : frame) :
  is_trigger buf = true ->
  exists t,
    tasks (react cfg renewUrl st (Message buf)) = tasks st ++ [t]
    /\ awaiting t
       = match RENEW_METHOD cfg with
         | http => FetchWithPayment renewUrl (renewal_post (current_token st))
         | inband => Fetch renewUrl (renewal_post (current_token st))
         end.
Proof.
  intros Htrigger. cbn [react]. rewrite (onMessage_trigger _ _ _ Htrigger).
  unfold renew, renew_http, renew_inband, httpRenew, inbandRenewChallenge.
  destruct (RENEW_METHOD cfg); eexists; split; reflexivity.
Qed.

Lemma react_tasks {platform : Platform} (cfg : Config) (renewUrl : string)
  (st : loop) (o : occurrence) :
  List.length (tasks (react cfg renewUrl st o))
  <= List.length (tasks st) + triggers [o].
Proof.
  destruct o as [buf | i w]; unfold triggers; cbn [filter].
  - destruct (is_trigger buf) eqn:Htrigger.
    + destruct (trigger_suspends cfg renewUrl st buf Htrigger) as (t & -> & _).
      rewrite length_app. cbn. lia.
    + destruct (other_frames cfg renewUrl buf Htrigger) as [-> _]. cbn. lia.
  - cbn [react List.length]. destruct (nth_error (tasks st) i) as [t|] eqn:Hnth; [|lia].
    rewrite tasks_drop_promise.
    etransitivity; [apply advance_tasks|]. cbn [tasks].
    rewrite (length_remove_nth _ _ Hnth). lia.
Qed.

Lemma triggers_cons (o : occurrence) (schedule : list occurrence) :
  triggers (o :: schedule) = triggers [o] + triggers schedule.
Proof.
  unfold triggers. cbn [filter].
  destruct o as [buf|]; [destruct (is_trigger buf)|]; reflexivity.
Qed.

Lemma pending_bounded {platform : Platform} (cfg : Config) (renewUrl : string)
  (schedule : list occurrence) (st : loop) :
  List.length (tasks (fold_left (react cfg renewUrl) schedule st))
  <= List.length (tasks st) + triggers schedule.
Proof.
  revert st. induction schedule as [|o schedule IH]; intros st; cbn [fold_left].
  - cbn. lia.
  - rewrite triggers_cons. specialize (IH (react cfg renewUrl st o)).
    pose proof (react_tasks cfg renewUrl st o). lia.
Qed.

Lemma in_flight_pending (st : loop) : renewals_in_flight st <= List.length (tasks st).
Proof. apply filter_length_le. Qed.

(** C5. The client has no single-flight guard: every [renewal_reminder] or
    [payment_required] event starts its own renewal attempt as soon as it
    is handled, next to whatever attempts are still pending, each carrying
    the token that is current when it starts.  What does hold is that an
    event starts exactly one attempt, that no other frame starts one, so
    that the attempts in flight never outnumber the events received, and
    that one handler call sends at most one [renew_token] or
    [renew_inband] message. *)
Theorem C5_one_attempt_per_trigger {platform : Platform} (cfg : Config)
  (renewUrl : string) :
  (forall st buf,
     is_trigger buf = true ->
     renewals_in_flight (react cfg renewUrl st (Message buf)) = S (renewals_in_flight st)
     /\ exists t,
          tasks (react cfg renewUrl st (Message buf)) = tasks st ++ [t]
          /\ awaiting t
             = match RENEW_METHOD cfg with
               | http => FetchWithPayment renewUrl (renewal_post (current_token st))
               | inband => Fetch renewUrl (renewal_post (current_token st))
               end)
  /\ (forall st buf,
        is_trigger buf = false ->
        tasks (react cfg renewUrl st (Message buf)) = tasks st)
  /\ (forall tok schedule,
        renewals_in_flight (run_loop cfg renewUrl tok schedule) <= triggers schedule)
  /\ (forall w tok buf,
        renewals_sent (trace (run w (onMessage cfg renewUrl buf) tok))
        <= if is_trigger buf then 1 else 0).
Proof.
  split; [|split; [|split]].
  - intros st buf Htrigger.
    destruct (trigger_suspends cfg renewUrl st buf Htrigger) as (t & Htasks & Hawaiting).
    split; [|exists t; auto].
    unfold renewals_in_flight. rewrite Htasks, filter_app, length_app. cbn [filter].
    rewrite Hawaiting. destruct (RENEW_METHOD cfg); cbn; lia.
  - intros st buf Hother. apply (other_frames cfg renewUrl buf Hother).
  - intros tok schedule. etransitivity; [apply in_flight_pending|].
    unfold run_loop. apply (pending_bounded cfg renewUrl schedule (start tok)).
  - intros w tok buf. unfold renewals_sent. destruct (is_trigger buf) eqn:Htrigger.
    + destruct (trigger_outcome cfg renewUrl w tok buf Htrigger) as [Hfail Hdone].
      destruct (attempt_rejected cfg renewUrl w tok) as (Hspecified & _ & Hone).
      destruct (result (run w (attempt cfg renewUrl) tok)) as [[]|e|] eqn:Ha.
      * destruct (Hdone eq_refl) as (-> & _). cbn [sent flat_map app].
        fold (sent (trace (run w (attempt cfg renewUrl) tok))).
        fold (renewals_sent (trace (run w (attempt cfg renewUrl) tok))).
        rewrite (Hone eq_refl). lia.
      * destruct (Hfail e eq_refl) as (before & -> & Hsent & _).
        rewrite sent_app, Hsent. cbn. lia.
      * contradiction.
    + destruct (other_frames cfg renewUrl buf Htrigger) as [_ ->]. cbn. lia.
Qed.

(** Two reminders in a row: two renewal requests are pending at once, both
    carrying the same token, and both end in a [renew_token] message. *)
Lemma C5_renewals_overlap :
  let reminder := Message (lifecycle "renewal_reminder") in
  let resolve := Settle 0 world_renewed in
  let pending :=
    run_loop (platform := sample_platform) (sample_cfg http full) sample_renewUrl "tok1"
      [reminder; reminder] in
  let settled :=
    run_loop (platform := sample_platform) (sample_cfg http full) sample_renewUrl "tok1"
      [reminder; reminder; resolve; resolve; resolve; resolve] in
  map awaiting (tasks pending)
  = [ FetchWithPayment sample_renewUrl (renewal_post "tok1");
      FetchWithPayment sample_renewUrl (renewal_post "tok1") ]
  /\ renewals_in_flight pending = 2
  /\ ~ renewals_in_flight pending <= 1
  /\ sent (history settled)
     = [ VObject [("op", VString "renew_token"); ("token", VString "tok2")];
         VObject [("op", VString "renew_token"); ("token", VString "tok2")] ].
Proof.
  cbv zeta. split; [reflexivity|]. split; [reflexivity|]. split; [|reflexivity].
  change (renewals_in_flight _) with 2. lia.
Qed.

(** ** The token under in-band renewal *)

(** With in-band renewal no path of the handler assigns [currentToken], and
    every request carries the token the session started with. *)
Lemma onMessage_inband {platform : Platform} (cfg : Config) (renewUrl tok : string)
  (buf : frame) :
  RENEW_METHOD cfg = inband ->
  always (eq tok) (@nothing exn) (inband_request renewUrl tok) (@anything value)
    (@nothing string) (onMessage cfg renewUrl buf).
Proof.
  intros Hmethod. rewrite onMessage_branch.
  destruct (classify (safeJsonParse buf)) as [[]|]; cbn [branch];
    unfold onStatus, onTransaction, onAccount, onSlot, onTicker, onLeaderboard,
      onX402Event, onIgnored, renew; try rewrite Hmethod;
    unfold renew_inband, inbandRenewChallenge;
    walk; try exact I; subst; cbn; auto.
Qed.


(** C10. With in-band renewal [currentToken] keeps, through the whole
    session, the token [main] took from the schema response: no handler
    call assigns it, every renewal challenge is a plain POST of that token
    to the renewal URL, and the payment-wrapping fetch of the direct
    strategy is never used. *)
Theorem C10_inband_token_fixed {platform : Platform} (cfg : Config) (w : world)
  (schedule : list occurrence) (st : loop) :
  RENEW_METHOD cfg = inband ->
  session cfg w schedule = Some st ->
  exists schema connection,
    result (run w (requestWs402Schema cfg (HTTP_BASE cfg)) "") = Completed schema
    /\ result (run w (main cfg) "") = Completed connection
    /\ current_token st = token schema
    /\ assignments (history st) = []
    /\ (forall op, In op (requests (history st)) ->
        inband_request (renewUrl connection) (token schema) op)
    /\ (forall t, In t (tasks st) ->
        inband_request (renewUrl connection) (token schema) (awaiting t)).
Proof.
  intros Hmethod Hsession. unfold session in Hsession. cbv zeta in Hsession.
  destruct (result (run w (main cfg) "")) as [connection|e|] eqn:Hmain; try discriminate.
  destruct (main_completed cfg w "" Hmain) as (schema & Hschema & Htoken & _ & _).
  rewrite Htoken in Hsession.
  assert (Hst : st = run_loop cfg (renewUrl connection) (token schema) schedule)
    by congruence.
  subst st. clear Hsession. exists schema, connection.
  destruct (run_loop_allowed cfg (renewUrl connection) (tok := token schema) schedule
              (fun buf => onMessage_inband cfg (renewUrl connection) (token schema) buf Hmethod)
              eq_refl) as (Hcurrent & Htasks & Hhistory).
  rewrite Forall_forall in Htasks, Hhistory.
  repeat split; try assumption.
  - symmetry. exact Hcurrent.
  - destruct (assignments _) as [|t rest] eqn:Hassigned; [reflexivity|].
    assert (Hin : In t (assignments (history (run_loop cfg (renewUrl connection)
                                               (token schema) schedule)))).
    { rewrite Hassigned. left. reflexivity. }
    unfold assignments in Hin. apply in_flat_map in Hin as (e & He & Ht).
    destruct e; try contradiction. destruct Ht as [<-|[]].
    exfalso. exact (Hhistory _ He).
  - intros op Hin. unfold requests in Hin. apply in_flat_map in Hin as (e & He & Hop).
    destruct e; try contradiction. destruct Hop as [<-|[]].
    exact (Hhistory _ He).
  - intros t Hin. apply (Htasks t Hin).
Qed.

Lemma only_http_assigns {platform : Platform} (cfg : Config) (renewUrl tok : string)
  (schedule : list occurrence) :
  assignments (history (run_loop cfg renewUrl tok schedule)) <> [] ->
  RENEW_METHOD cfg = http.
Proof.
  intros Hassigned. destruct (RENEW_METHOD cfg) eqn:Hmethod; [reflexivity|].
  exfalso. apply Hassigned.
  destruct (run_loop_allowed cfg renewUrl (tok := tok) schedule
              (fun buf => onMessage_inband cfg renewUrl tok buf Hmethod) eq_refl)
    as (_ & _ & Hhistory).
  rewrite Forall_forall in Hhistory.
  destruct (assignments _) as [|t rest] eqn:Hlist; [reflexivity|].
  assert (Hin : In t (assignments (history (run_loop cfg renewUrl tok schedule)))).
  { rewrite Hlist. left. reflexivity. }
  unfold assignments in Hin. apply in_flat_map in Hin as (e & He & Ht).
  destruct e; try contradiction. destruct Ht as [<-|[]].
  exfalso. exact (Hhistory _ He).
Qed.

Lemma C10_inband_token_fixed_witness :
  exists st,
    session (platform := sample_platform) (sample_cfg inband full) session_world
      sample_schedule = Some st
    /\ current_token st = "abc123"
    /\ assignments (history st) = [].
Proof.
  eexists. split; [reflexivity|].
  destruct (@C10_inband_token_fixed sample_platform (sample_cfg inband full) session_world
              sample_schedule _ eq_refl eq_refl)
    as (schema & connection & Hschema & _ & Htoken & Hassigned & _).
  split; [|exact Hassigned].
  rewrite Htoken. vm_compute in Hschema. injection Hschema as <-. reflexivity.
Defined.

(** The sample session, as the socket sees it. *)
Example sample_session_sends :
  option_map (fun st => sent (history st))
    (session (platform := sample_platform) (sample_cfg inband full) session_world
       sample_schedule)
  = Some [VObject [("op", VString "renew_inband");
                   ("paymentRequirements", sample_requirement);
                   ("paymentPayload", sample_payload)]].
Proof. reflexivity. Qed.

(** The scenario of a renewal answered with status 500: the failure is
    logged, the timer runs out, and the slot event that follows is logged
    as a slot event. *)
Example renewal_500_then_slot :
  let slot_event :=
    JsonText (VObject [("type", VString "slot"); ("slot", VNumber (number_of_nat 100));
                       ("status", VString "confirmed")]) in
  let st :=
    run_loop (platform := sample_platform) (sample_cfg http full) sample_renewUrl "tok1"
      [ Message (lifecycle "renewal_reminder"); Settle 0 world_500; Settle 0 world_500;
        Message slot_event ] in
  warnings (history st) = ["renew error"]
  /\ sent (history st) = []
  /\ current_token st = "tok1"
  /\ tasks st = []
  /\ last (history st) Untyped
     = Logged info "client" "slot"
         (Some (VObject [("slot", VNumber (number_of_nat 100)); ("parent", VUndefined);
                         ("status", VString "confirmed")])).
Proof. cbv zeta. repeat split. Qed.

(** * Further properties *)

(** ** Schema validation *)






(** ** The schema request and [main] *)

Lemma schema_request_quiet {platform : Platform} (cfg : Config) (httpBase : string)
  (w : world) (tok : string) :
  let r := run w (requestWs402Schema cfg httpBase) tok in
  sent (trace r) = [] /\ assignments (trace r) = [] /\ final_token r = tok.
Proof.
  unfold requestWs402Schema.
  destruct (URL_resolve (X402_SCHEMA_PATH cfg) httpBase) as [url|e0];
    [explore w|]; repeat split.
Qed.


(** X2. How the schema request fails: an unusable schema URL rejects before
    any request; a rejected fetch rejects with the same exception; a status
    outside 200..299 rejects with [x402 schema failed: <status>] without
    reading the body; a body that is not JSON rejects with the parser's
    exception; a body of the wrong shape rejects with
    [x402 schema response shape invalid].  Whatever happens, the request
    sends nothing on a socket, leaves [currentToken] alone and awaits
    nothing but the GET and its body. *)
Theorem X2_schema_request_failures {platform : Platform} (cfg : Config)
  (httpBase : string) (w : world) (tok : string) :
  let r := run w (requestWs402Schema cfg httpBase) tok in
  sent (trace r) = [] /\ assignments (trace r) = [] /\ final_token r = tok
  /\ (forall e,
        URL_resolve (X402_SCHEMA_PATH cfg) httpBase = Threw e ->
        result r = Rejects e /\ trace r = [])
  /\ (forall url,
        URL_resolve (X402_SCHEMA_PATH cfg) httpBase = Returned url ->
        (forall e, w (schema_get url) = Threw e ->
                   result r = Rejects e /\ requests (trace r) = [schema_get url])
        /\ (forall resp,
              w (schema_get url) = Returned resp ->
              (ok resp = false ->
               result r = Rejects (Error ("x402 schema failed: " ++ decimal (status resp)))
               /\ requests (trace r) = [schema_get url])
              /\ (ok resp = true ->
                  requests (trace r) = [schema_get url; ResponseJson resp]
                  /\ (forall e, w (ResponseJson resp) = Threw e -> result r = Rejects e)
                  /\ (forall data,
                        w (ResponseJson resp) = Returned data ->
                        isWs402StreamSchema data = false ->
                        result r = Rejects (Error "x402 schema response shape invalid"))))).
Proof.
  intros r. unfold schema_get.
  destruct (schema_request_quiet cfg httpBase w tok) as (Hsent & Hassigned & Htoken).
  fold r in Hsent, Hassigned, Htoken.
  split; [exact Hsent|]. split; [exact Hassigned|]. split; [exact Htoken|].
  unfold r, requestWs402Schema. split.
  - intros e Hurl. rewrite Hurl. split; reflexivity.
  - intros url Hurl. rewrite Hurl. evaluate. split.
    + intros e Hfetch. given Hfetch. split; reflexivity.
    + intros resp Hfetch. given Hfetch. split.
      * intros Hok. given Hok. split; reflexivity.
      * intros Hok. given Hok. split; [|split].
        -- destruct (w (ResponseJson resp)) as [data|e]; evaluate;
             [destruct (isWs402StreamSchema data); evaluate;
              [destruct (String.eqb _ ""); evaluate|]|]; reflexivity.
        -- intros e Hjson. given Hjson. reflexivity.
        -- intros data Hjson Hshape. given Hjson. given Hshape. reflexivity.
Qed.

Lemma assignments_app (l1 l2 : list event) :
  assignments (l1 ++ l2) = assignments l1 ++ assignments l2.
Proof. apply flat_map_app. Qed.


(** ** The schema version *)

Lemma prefix_cons (a b : ascii) (p s : string) :
  String.prefix (String a p) (String b s)
  = if ascii_dec a b then String.prefix p s else false.
Proof. reflexivity. Qed.

Lemma prefix_nil (a : ascii) (p : string) : String.prefix (String a p) "" = false.
Proof. reflexivity. Qed.

Lemma absolute_not_versioned (path : string) :
  String.prefix "http://" path = true \/ String.prefix "https://" path = true ->
  String.prefix "/v1/" path = false /\ String.prefix "/v2/" path = false.
Proof.
  destruct path as [|c rest]; [intros [H|H]; discriminate H|].
  rewrite !prefix_cons.
  destruct (ascii_dec "h" c) as [<-|Hc]; [intros _; split; reflexivity|].
  intros [H|H]; discriminate H.
Qed.

Lemma versioned_path (rawPath : string) :
  (if String.prefix "/v1/" rawPath then v1
   else if String.prefix "/v2/" rawPath then v2 else v1) = v2
  <-> String.prefix "/v2/" rawPath = true.
Proof.
  destruct (String.prefix "/v1/" rawPath) eqn:H1.
  - split; [discriminate|]. intros H2. exfalso.
    destruct rawPath as [|a [|b [|c rest]]]; try discriminate H1;
      rewrite ?prefix_cons, ?prefix_nil in H1, H2;
      repeat match type of H1 with
             | context [ascii_dec ?x ?y] => destruct (ascii_dec x y); [subst y|]
             end;
      try discriminate H1; discriminate H2.
  - destruct (String.prefix "/v2/" rawPath); split; congruence.
Qed.

(** X4. The schema version is [v2] exactly when the path begins with [/v2/],
    and [v1] for everything else: a path that begins with [/v1/], any other
    path, and an absolute URL that cannot be parsed.  The path is the
    configured string itself unless that begins with [http://] or
    [https://], in which case it is the path name of the parsed URL. *)
Theorem X4_schema_version {platform : Platform} (path : string) :
  (String.prefix "http://" path = false ->
   String.prefix "https://" path = false ->
   (parseSchemaVersion path = v2 <-> String.prefix "/v2/" path = true))
  /\ (String.prefix "http://" path = true \/ String.prefix "https://" path = true ->
      (forall e, URL_new path = Threw e -> parseSchemaVersion path = v1)
      /\ (forall u, URL_new path = Returned u ->
                    (parseSchemaVersion path = v2
                     <-> String.prefix "/v2/" (pathname u) = true))).
Proof.
  split.
  - intros Hhttp Hhttps. unfold parseSchemaVersion. rewrite Hhttp, Hhttps. cbn [negb andb].
    apply versioned_path.
  - intros Habsolute.
    assert (Hraw : negb (String.prefix "http://" path) && negb (String.prefix "https://" path)
                   = false).
    { destruct Habsolute as [-> | ->]; [reflexivity | apply andb_false_r]. }
    unfold parseSchemaVersion. rewrite Hraw. split.
    + intros e Hparse. rewrite Hparse.
      destruct (absolute_not_versioned path Habsolute) as [-> ->]. reflexivity.
    + intros u Hparse. rewrite Hparse. apply versioned_path.
Qed.

(** X5. The version segment written into the renewal path is the one read
    back from a schema path: a path [/<version>/...] has that version, for
    [v1] and for [v2], so the renewal URL of a session is built under the
    version of the schema path it was configured with. *)
Theorem X5_version_round_trip {platform : Platform} (version : X402SchemaVersion)
  (rest base stream : string) :
  parseSchemaVersion ("/" ++ version_text version ++ "/" ++ rest) = version
  /\ buildRenewUrl base stream (parseSchemaVersion ("/" ++ version_text version ++ "/" ++ rest))
     = URL_resolve ("/" ++ version_text version ++ "/renew/stream/" ++ stream) base.
Proof.
  assert (Hversion : parseSchemaVersion ("/" ++ version_text version ++ "/" ++ rest) = version)
    by (destruct version, rest; reflexivity).
  split; [exact Hversion|]. rewrite Hversion. reflexivity.
Qed.

(** ** Logging *)

(** X6. The log filter is upward closed: a level that passes lets every
    higher level pass.  A configured level that names one of the four
    levels lets exactly the levels from it upwards pass, and a level that
    names nothing ([NoEntry]: a misspelling, the empty string) filters like
    [info], so that only [debug] is dropped. *)
Theorem X6_log_filter :
  (forall min level level',
     shouldLog min level = true ->
     levelOrder level <= levelOrder level' ->
     shouldLog min level' = true)
  /\ (forall named level,
        shouldLog (minLevel (level_text named)) level
        = Nat.leb (levelOrder named) (levelOrder level))
  /\ (forall configured level,
        levelOrder_get configured = NoEntry ->
        shouldLog (minLevel configured) level
        = match level with debug => false | _ => true end).
Proof.
  split; [|split].
  - intros [n|] level level' Hlevel Hle; cbn in *; [|discriminate].
    apply Nat.leb_le. apply Nat.leb_le in Hlevel. lia.
  - intros [] level; reflexivity.
  - intros configured level Hnone. unfold minLevel. rewrite Hnone.
    destruct level; reflexivity.
Qed.

Lemma levelOrder_get_inherited (configured : string) :
  levelOrder_get configured = Inherited <-> In configured Object_prototype_properties.
Proof.
  unfold levelOrder_get.
  destruct (String.eqb_spec configured "debug") as [->|_];
    [split; [discriminate | cbn; intuition discriminate]|].
  destruct (String.eqb_spec configured "info") as [->|_];
    [split; [discriminate | cbn; intuition discriminate]|].
  destruct (String.eqb_spec configured "warn") as [->|_];
    [split; [discriminate | cbn; intuition discriminate]|].
  destruct (String.eqb_spec configured "error") as [->|_];
    [split; [discriminate | cbn; intuition discriminate]|].
  rewrite <- includes_In.
  destruct (includes Object_prototype_properties configured); split; congruence.
Qed.

(** X7. Messages of level [error] pass the filter for every configured
    level except the names every object inherits from [Object.prototype]
    (after lower-casing: [constructor] and [__proto__]); for those,
    [minLevel] is not a number and nothing at all is logged. *)
Theorem X7_error_level_passes (configured : string) :
  (shouldLog (minLevel configured) error = true
   <-> ~ In configured Object_prototype_properties)
  /\ (In configured Object_prototype_properties ->
      forall level, shouldLog (minLevel configured) level = false).
Proof.
  rewrite <- levelOrder_get_inherited. unfold minLevel, levelOrder_get.
  repeat match goal with
         | |- context [String.eqb configured ?s] => destruct (String.eqb configured s)
         end;
    try (split; [split; [discriminate | reflexivity] | discriminate]).
  destruct (includes Object_prototype_properties configured); cbn.
  - split; [split; [discriminate | intros H; exfalso; apply H; reflexivity]|].
    intros _ level. reflexivity.
  - split; [split; [discriminate | reflexivity] | discriminate].
Qed.

Lemma string_append_assoc (s t u : string) : ((s ++ t) ++ u = s ++ (t ++ u))%string.
Proof. induction s as [|a s IH]; cbn [append]; [reflexivity | rewrite IH; reflexivity]. Qed.

Lemma string_append_nil (s : string) : (s ++ "" = s)%string.
Proof. induction s as [|a s IH]; cbn [append]; [reflexivity | rewrite IH; reflexivity]. Qed.

Lemma prefix_append (s t : string) : String.prefix s (s ++ t) = true.
Proof.
  induction s as [|a s IH]; [destruct t; reflexivity|].
  cbn [append]. rewrite prefix_cons. destruct (ascii_dec a a); [exact IH | contradiction].
Qed.

(** X8. A log call prints nothing exactly when its level does not pass the
    filter; otherwise it prints one line, on [console.error] for [error],
    on [console.warn] for [warn] and on [console.log] for the rest, that
    begins [[ts] [scope] [level] message]; meta data that
    [JSON.stringify] cannot serialize does not make the call fail: the
    line ends with the quoted placeholder [[unserializable]]. *)
Theorem X8_log_line (min : threshold) (JSON_stringify : value -> outcome string)
  (ts : string) (level : LogLevel) (scope message : string) (m : option value) :
  let header :=
    ("[" ++ ts ++ "] [" ++ scope ++ "] [" ++ level_text level ++ "] " ++ message)%string in
  (log min JSON_stringify ts level scope message m = None
   <-> shouldLog min level = false)
  /\ (forall method line,
        log min JSON_stringify ts level scope message m = Some (method, line) ->
        method = match level with
                 | error => console_error
                 | warn => console_warn
                 | _ => console_log
                 end
        /\ String.prefix header line = true)
  /\ (m = None -> shouldLog min level = true ->
      exists method, log min JSON_stringify ts level scope message m = Some (method, header))
  /\ (forall v e,
        m = Some v -> truthy v = true -> JSON_stringify v = Threw e ->
        shouldLog min level = true ->
        exists method,
          log min JSON_stringify ts level scope message m
          = Some (method,
                  (header ++ " " ++ double_quote ++ "[unserializable]" ++ double_quote)%string)).
Proof.
  intros header.
  assert (Hline : forall tail,
             ("[" ++ ts ++ "] [" ++ scope ++ "] [" ++ level_text level ++ "] " ++ message
              ++ tail)%string = (header ++ tail)%string).
  { intros tail. unfold header. rewrite !string_append_assoc. reflexivity. }
  unfold log. rewrite Hline. destruct (shouldLog min level); cbn [negb].
  - split; [split; discriminate|]. split; [|split].
    + intros method line [= <- <-]. split; [reflexivity | apply prefix_append].
    + intros -> _. eexists. cbn [formatMeta String.eqb negb]. rewrite string_append_nil.
      reflexivity.
    + intros v e -> Hv He _. eexists. cbn [formatMeta]. rewrite Hv, He. reflexivity.
  - split; [split; reflexivity|]. split; [discriminate|]. split; [discriminate|].
    intros v e _ _ _ H. discriminate H.
Qed.

(** X9. The socket handlers log at [info] and [warn] only: with the log
    level configured as [error] neither the [open] handler nor any call of
    the [message] handler prints a line, a caught renewal failure
    included. *)
Theorem X9_handlers_silent_at_error {platform : Platform} (cfg : Config)
  (renewUrl : string) (w : world) (tok : string) (buf : frame)
  (JSON_stringify : value -> outcome string) (ts : string) :
  printed (minLevel "error") JSON_stringify ts (trace (run w (onMessage cfg renewUrl buf) tok))
  = []
  /\ printed (minLevel "error") JSON_stringify ts (trace (run w (onOpen cfg) tok)) = [].
Proof.
  split.
  - rewrite onMessage_branch.
    destruct (classify (safeJsonParse buf)) as [[]|]; cbn [branch];
      unfold onStatus, onTransaction, onAccount, onSlot, onTicker, onLeaderboard,
        onX402Event, onIgnored;
      try reflexivity.
    + destruct (TX_LOG_MODE cfg);
        [destruct (isEnhancedTransactionEvent (safeJsonParse buf));
         [destruct (EnhancedTransactionEvent.decode (safeJsonParse buf))
         |destruct (RawTransactionEvent.decode (safeJsonParse buf))]|];
        reflexivity.
    + destruct (is_string_literal (get (safeJsonParse buf) "op") "renewal_reminder"
                || is_string_literal (get (safeJsonParse buf) "op") "payment_required");
        [|reflexivity].
      unfold logInfo at 1. cbn [bind run]. rewrite run_renew. unfold attempt.
      destruct (RENEW_METHOD cfg);
        unfold renew_http, httpRenew, renew_inband, inbandRenewChallenge;
        explore w; reflexivity.
  - unfold onOpen. destruct (WATCH_ACCOUNTS cfg), (WATCH_PROGRAMS cfg); reflexivity.
Qed.

(** ** Lists in the environment *)

Lemma string_length_ind (P : string -> Prop) :
  (forall s, (forall t, String.length t < String.length s -> P t) -> P s) ->
  forall s, P s.
Proof.
  intros Hstep s. remember (String.length s) as n eqn:Hn.
  revert s Hn. induction n as [n IH] using lt_wf_ind.
  intros s ->. apply Hstep. intros t Hlt. exact (IH _ Hlt t eq_refl).
Qed.

Lemma leading_space_shorter (s rest : string) :
  leading_space s = Some rest -> String.length rest < String.length s.
Proof.
  unfold leading_space. destruct s as [|a [|b [|c rest3]]]; try discriminate.
  - destruct (space1 a); [intros [= <-]; cbn; lia | discriminate].
  - destruct (space1 a); [intros [= <-]; cbn; lia|].
    destruct (space2 a b); [intros [= <-]; cbn; lia | discriminate].
  - destruct (space1 a); [intros [= <-]; cbn; lia|].
    destruct (space2 a b); [intros [= <-]; cbn; lia|].
    destruct (space3 a b c); [intros [= <-]; cbn; lia | discriminate].
Qed.

Lemma trimStart_step (s : string) :
  trimStart s = match leading_space s with
                | Some rest => trimStart rest
                | None => s
                end.
Proof.
  destruct s as [|a [|b [|c rest3]]]; cbn [trimStart leading_space]; try reflexivity.
  - destruct (space1 a); reflexivity.
  - destruct (space1 a); [reflexivity|]. destruct (space2 a b); reflexivity.
  - destruct (space1 a); [reflexivity|]. destruct (space2 a b); [reflexivity|].
    destruct (space3 a b c); reflexivity.
Qed.

Lemma trimStart_no_leading (s : string) : leading_space (trimStart s) = None.
Proof.
  induction s as [s IH] using string_length_ind.
  rewrite trimStart_step. destruct (leading_space s) as [rest|] eqn:Hs; [|exact Hs].
  apply IH. apply leading_space_shorter. exact Hs.
Qed.

Lemma leading_space_chars (s rest : string) (x : ascii) :
  leading_space s = Some rest ->
  In x (list_ascii_of_string rest) -> In x (list_ascii_of_string s).
Proof.
  unfold leading_space. destruct s as [|a [|b [|c rest3]]]; try discriminate.
  - destruct (space1 a); [intros [= <-]; cbn; auto | discriminate].
  - destruct (space1 a); [intros [= <-]; cbn; auto|].
    destruct (space2 a b); [intros [= <-]; cbn; auto | discriminate].
  - destruct (space1 a); [intros [= <-]; cbn; auto|].
    destruct (space2 a b); [intros [= <-]; cbn; auto|].
    destruct (space3 a b c); [intros [= <-]; cbn; auto | discriminate].
Qed.

Lemma trimStart_chars (s : string) (x : ascii) :
  In x (list_ascii_of_string (trimStart s)) -> In x (list_ascii_of_string s).
Proof.
  induction s as [s IH] using string_length_ind.
  rewrite trimStart_step. destruct (leading_space s) as [rest|] eqn:Hs; [|auto].
  intros Hin. apply leading_space_chars with (rest := rest); [exact Hs|].
  apply IH; [|exact Hin]. apply leading_space_shorter. exact Hs.
Qed.

Lemma blank_step (s rest : string) : leading_space s = Some rest -> blank s = blank rest.
Proof. intros Hs. unfold blank. rewrite (trimStart_step s), Hs. reflexivity. Qed.

Lemma blank_no_leading (s : string) :
  leading_space s = None -> blank s = true -> s = EmptyString.
Proof.
  intros Hs. unfold blank. rewrite trimStart_step, Hs. apply String.eqb_eq.
Qed.

Lemma leading_space_app (p q rest : string) :
  leading_space p = Some rest -> leading_space (p ++ q) = Some (rest ++ q)%string.
Proof.
  unfold leading_space. destruct p as [|a [|b [|c rest3]]]; try discriminate; cbn [append].
  - destruct (space1 a); [intros [= <-]; reflexivity | discriminate].
  - destruct (space1 a); [intros [= <-]; reflexivity|].
    destruct (space2 a b); [intros [= <-]; reflexivity | discriminate].
  - destruct (space1 a); [intros [= <-]; reflexivity|].
    destruct (space2 a b); [intros [= <-]; reflexivity|].
    destruct (space3 a b c); [intros [= <-]; reflexivity | discriminate].
Qed.

Lemma blank_app (p q : string) : blank p = true -> blank q = true -> blank (p ++ q) = true.
Proof.
  induction p as [p IH] using string_length_ind. intros Hp Hq.
  destruct (leading_space p) as [rest|] eqn:Hlead.
  - rewrite (blank_step _ (leading_space_app _ q Hlead)).
    apply IH; [apply leading_space_shorter; exact Hlead | | exact Hq].
    rewrite <- (blank_step _ Hlead). exact Hp.
  - rewrite (blank_no_leading _ Hlead Hp). exact Hq.
Qed.

(** What [trimEnd] cuts off is blank. *)
Lemma trimEnd_split (s : string) :
  exists q, s = (trimEnd s ++ q)%string /\ blank q = true.
Proof.
  induction s as [|a rest IH]; [exists EmptyString; split; reflexivity|].
  cbn [trimEnd]. destruct (blank (String a rest)) eqn:Hblank.
  - exists (String a rest). split; [reflexivity | exact Hblank].
  - destruct IH as (q & Hq & Hblankq). exists q. split; [|exact Hblankq].
    cbn [append]. rewrite <- Hq. reflexivity.
Qed.

Lemma chars_app (p q : string) :
  list_ascii_of_string (p ++ q) = list_ascii_of_string p ++ list_ascii_of_string q.
Proof. induction p as [|a p IH]; cbn; [reflexivity | rewrite IH; reflexivity]. Qed.

Lemma trimEnd_chars (s : string) (x : ascii) :
  In x (list_ascii_of_string (trimEnd s)) -> In x (list_ascii_of_string s).
Proof.
  destruct (trimEnd_split s) as (q & Hq & _). intros Hin.
  rewrite Hq, chars_app. apply in_or_app. left. exact Hin.
Qed.

Lemma trimEnd_no_leading (s : string) :
  leading_space s = None -> leading_space (trimEnd s) = None.
Proof.
  intros Hs. destruct (trimEnd_split s) as (q & Hq & _).
  destruct (leading_space (trimEnd s)) as [rest|] eqn:Hlead; [|reflexivity].
  apply (leading_space_app _ q) in Hlead. rewrite <- Hq in Hlead. congruence.
Qed.

Lemma trimEnd_not_blank (s : string) : blank s = false -> blank (trimEnd s) = false.
Proof.
  intros Hs. destruct (trimEnd_split s) as (q & Hq & Hblankq).
  destruct (blank (trimEnd s)) eqn:Hblank; [|reflexivity].
  rewrite Hq in Hs. rewrite (blank_app _ _ Hblank Hblankq) in Hs. discriminate.
Qed.

(** [trimEnd] leaves no white space character at the end. *)
Lemma trimEnd_no_trailing (s p sp : string) :
  trimEnd s = (p ++ sp)%string -> leading_space sp = Some EmptyString -> False.
Proof.
  revert p. induction s as [|a rest IH]; intros p Hsplit Hsp.
  - cbn in Hsplit. destruct p, sp; cbn in Hsplit; discriminate.
  - cbn [trimEnd] in Hsplit. destruct (blank (String a rest)) eqn:Hblank.
    + destruct p, sp; cbn in Hsplit; discriminate.
    + destruct p as [|a' p'].
      * cbn [append] in Hsplit.
        destruct (trimEnd_split (String a rest)) as (q & Hq & Hblankq).
        cbn [trimEnd] in Hq. rewrite Hblank, Hsplit in Hq.
        pose proof (leading_space_app _ q Hsp) as Hlead. rewrite <- Hq in Hlead.
        rewrite (blank_step _ Hlead) in Hblank. cbn [append] in Hblank. congruence.
      * cbn [append] in Hsplit. injection Hsplit as _ Hrest. exact (IH p' Hrest Hsp).
Qed.

Lemma trimEnd_idempotent (s : string) : trimEnd (trimEnd s) = trimEnd s.
Proof.
  induction s as [|a rest IH]; [reflexivity|].
  cbn [trimEnd]. destruct (blank (String a rest)) eqn:Hblank; [reflexivity|].
  pose proof (trimEnd_not_blank _ Hblank) as Hkept. cbn [trimEnd] in Hkept.
  rewrite Hblank in Hkept. cbn [trimEnd]. rewrite Hkept, IH. reflexivity.
Qed.

Lemma trim_idempotent (s : string) : trim (trim s) = trim s.
Proof.
  unfold trim.
  assert (Hlead : leading_space (trimEnd (trimStart s)) = None)
    by (apply trimEnd_no_leading, trimStart_no_leading).
  rewrite (trimStart_step (trimEnd (trimStart s))), Hlead. apply trimEnd_idempotent.
Qed.

Lemma split_on_items (sep : ascii) (s item : string) :
  In item (split_on sep s) -> ~ In sep (list_ascii_of_string item).
Proof.
  revert item. induction s as [|c rest IH]; intros item; cbn [split_on].
  - intros [<-|[]]. cbn. tauto.
  - destruct (Ascii.eqb_spec c sep) as [->|Hne].
    + intros [<-|Hin]; [cbn; tauto | auto].
    + destruct (split_on sep rest) as [|first others].
      * intros [<-|[]]. cbn. intros [Heq|[]]. auto.
      * intros [<-|Hin].
        -- cbn. intros [Heq|Hin]; [auto|]. exact (IH first (or_introl eq_refl) Hin).
        -- exact (IH item (or_intror Hin)).
Qed.

Lemma parseList_item (v : option string) (item : string) :
  In item (parseList v) ->
  exists s piece, v = Some s /\ In piece (split_on comma s)
                  /\ item = trim piece /\ item <> EmptyString.
Proof.
  unfold parseList. destruct v as [s|]; [|intros []].
  destruct (String.eqb s EmptyString); [intros []|].
  rewrite filter_In, in_map_iff. intros [(piece & <- & Hpiece) Hnonempty].
  exists s, piece. repeat split; try assumption.
  intros Hempty. rewrite Hempty in Hnonempty. discriminate.
Qed.

(** X10. Every item of a parsed list is non-empty, contains no comma, and
    has no white space at either end (trimming it again changes nothing);
    a missing variable, the empty string and a string of nothing but
    commas and white space give the empty list. *)
Theorem X10_parseList_items (v : option string) (item : string) :
  (In item (parseList v) ->
   clean item
   /\ leading_space item = None
   /\ (forall p sp, item = (p ++ sp)%string -> leading_space sp <> Some EmptyString))
  /\ parseList None = []
  /\ parseList (Some EmptyString) = []
  /\ (forall s, (forall piece, In piece (split_on comma s) -> blank piece = true) ->
                parseList (Some s) = []).
Proof.
  split; [|split; [|split]]; try reflexivity.
  - intros Hin. destruct (parseList_item v item Hin) as (s & piece & _ & Hpiece & -> & Hne).
    split; [split; [exact Hne | split]|split].
    + intros Hcomma. apply (split_on_items comma s piece Hpiece).
      apply trimStart_chars, trimEnd_chars. exact Hcomma.
    + apply trim_idempotent.
    + apply trimEnd_no_leading, trimStart_no_leading.
    + intros p sp Hsplit Hsp. unfold trim in Hsplit.
      eapply trimEnd_no_trailing; eassumption.
  - intros s Hblank. unfold parseList. destruct (String.eqb s EmptyString); [reflexivity|].
    induction (split_on comma s) as [|piece pieces IH]; [reflexivity|].
    cbn [map filter]. unfold trim at 1.
    assert (Hpiece : trimStart piece = EmptyString).
    { apply String.eqb_eq. apply (Hblank piece). left. reflexivity. }
    rewrite Hpiece. cbn [trimEnd String.eqb negb]. apply IH.
    intros other Hother. apply Hblank. right. exact Hother.
Qed.

Lemma split_on_free (sep : ascii) (item : string) :
  ~ In sep (list_ascii_of_string item) -> split_on sep item = [item].
Proof.
  induction item as [|c rest IH]; [reflexivity|]. cbn [split_on list_ascii_of_string].
  intros Hfree. destruct (Ascii.eqb_spec c sep) as [->|Hne].
  - exfalso. apply Hfree. left. reflexivity.
  - rewrite IH; [reflexivity|]. intros Hin. apply Hfree. right. exact Hin.
Qed.

Lemma split_on_app (sep : ascii) (item rest : string) :
  ~ In sep (list_ascii_of_string item) ->
  split_on sep (item ++ String sep rest) = item :: split_on sep rest.
Proof.
  induction item as [|c item IH]; cbn [append split_on list_ascii_of_string].
  - intros _. rewrite Ascii.eqb_refl. reflexivity.
  - intros Hfree. destruct (Ascii.eqb_spec c sep) as [->|Hne].
    + exfalso. apply Hfree. left. reflexivity.
    + rewrite IH; [reflexivity|]. intros Hin. apply Hfree. right. exact Hin.
Qed.

Lemma split_on_join (l : list string) :
  l <> [] ->
  Forall (fun item => ~ In comma (list_ascii_of_string item)) l ->
  split_on comma (join l) = l.
Proof.
  intros Hne Hfree. induction Hfree as [|item rest Hitem Hrest IH]; [contradiction|].
  destruct rest as [|next rest].
  - apply split_on_free. exact Hitem.
  - unfold join. cbn [String.concat]. cbn [append].
    rewrite split_on_app by exact Hitem. f_equal. apply IH. discriminate.
Qed.

Lemma clean_kept (l : list string) :
  Forall clean l ->
  filter (fun item => negb (String.eqb item EmptyString)) (map trim l) = l.
Proof.
  induction 1 as [|item others (Hne & _ & Htrim) _ IH]; [reflexivity|].
  cbn [map filter]. rewrite Htrim. apply String.eqb_neq in Hne. rewrite Hne.
  cbn [negb]. f_equal. exact IH.
Qed.

(** X11. Writing a list of clean items (non-empty, without commas, that
    trimming leaves unchanged) with commas in between and parsing it gives
    the list back, items, order and repetitions included. *)
Theorem X11_parseList_round_trip (l : list string) :
  Forall clean l -> parseList (Some (join l)) = l.
Proof.
  intros Hclean. destruct l as [|first rest]; [reflexivity|].
  unfold parseList.
  assert (Hjoin : join (first :: rest) <> EmptyString).
  { inversion Hclean as [|? ? (Hne & _ & _) _]. subst. unfold join. cbn [String.concat].
    destruct rest; [exact Hne|]. destruct first; [contradiction | discriminate]. }
  apply String.eqb_neq in Hjoin. rewrite Hjoin.
  rewrite split_on_join; [|discriminate|].
  - apply clean_kept. exact Hclean.
  - apply Forall_impl with (2 := Hclean). intros item (_ & Hfree & _). exact Hfree.
Qed.

Lemma X11_parseList_round_trip_witness :
  parseList (Some (join sample_accounts)) = sample_accounts.
Proof.
  apply X11_parseList_round_trip.
  repeat constructor; try discriminate;
    cbn; intros H; repeat (destruct H as [H|H]; [discriminate H|]); exact H.
Defined.

(** ** The option parsers *)

(** X12. [parseBoolean], [parseEventFormat] and [parseTxLogMode] look at
    their value through [toLowerCase] only: two values with the same
    lower-casing are parsed alike (given that the empty string lower-cases
    to itself), so the spelling [TRUE], [Raw] or [SUMMARY] is as good as
    the lower-case one. *)
Theorem X12_parsers_ignore_case (toLowerCase : string -> string) (s t : string)
  (fallback : bool) :
  toLowerCase EmptyString = EmptyString ->
  toLowerCase s = toLowerCase t ->
  parseBoolean toLowerCase (Some s) fallback = parseBoolean toLowerCase (Some t) fallback
  /\ parseEventFormat toLowerCase (Some s) = parseEventFormat toLowerCase (Some t)
  /\ parseTxLogMode toLowerCase (Some s) = parseTxLogMode toLowerCase (Some t).
Proof.
  intros Hempty Hsame. unfold parseBoolean, parseEventFormat, parseTxLogMode.
  rewrite Hsame. split; [reflexivity|].
  destruct (String.eqb_spec s EmptyString) as [->|Hs],
           (String.eqb_spec t EmptyString) as [->|Ht];
    try (split; reflexivity).
  - rewrite Hempty in Hsame. rewrite <- Hsame. split; reflexivity.
  - rewrite Hempty. split; reflexivity.
Qed.

Lemma X12_parsers_ignore_case_witness :
  parseBoolean lower_letters (Some "TRUE") false = true
  /\ parseEventFormat lower_letters (Some "Raw") = Some raw
  /\ parseTxLogMode lower_letters (Some "SUMMARY") = summary.
Proof.
  destruct (@X12_parsers_ignore_case lower_letters "TRUE" "true" false eq_refl eq_refl)
    as (Hboolean & _ & _).
  destruct (@X12_parsers_ignore_case lower_letters "Raw" "raw" false eq_refl eq_refl)
    as (_ & Hformat & _).
  destruct (@X12_parsers_ignore_case lower_letters "SUMMARY" "summary" false eq_refl eq_refl)
    as (_ & _ & Hmode).
  rewrite Hboolean, Hformat, Hmode. repeat split.
Defined.

(** ** The key conversion script *)

Lemma isByteArray_items (v : value) :
  isByteArray v = true -> v = VArray (items_of v) /\ Forall (fun x => is_byte x = true) (items_of v).
Proof.
  destruct v; cbn; try discriminate. intros Hall. split; [reflexivity|].
  apply Forall_forall. apply forallb_forall. exact Hall.
Qed.

Lemma is_byte_range (v : value) :
  is_byte v = true ->
  exists n, v = VNumber n /\ integer_value n = Some (byte_of v)
            /\ (0 <= byte_of v <= 255)%Z.
Proof.
  destruct v; cbn [is_byte byte_of]; try discriminate.
  destruct (integer_value n) as [z|] eqn:Hz; [|discriminate].
  intros Hrange. apply andb_true_iff in Hrange as [Hlow Hhigh].
  apply Z.leb_le in Hlow, Hhigh. exists n. auto.
Qed.

Lemma candidates_of_scalar (data : value) :
  (truthy data && match data with VObject _ | VArray _ => true | _ => false end) = false ->
  isByteArray data = false ->
  forall c, In c (candidates data) -> isByteArray c = false.
Proof.
  intros Hscalar Hdata c [<-|Hin]; [exact Hdata|].
  destruct data; cbn in Hscalar; try discriminate;
    cbn in Hin; repeat (destruct Hin as [<-|Hin]; [reflexivity|]); contradiction.
Qed.

(** Whatever [extractKey] returns passed [isByteArray]. *)
Lemma extractKey_bytes (data : value) (key : list value) :
  extractKey data = Some key ->
  Forall (fun x => (0 <= byte_of x <= 255)%Z) key.
Proof.
  assert (Hitems : forall c, isByteArray c = true -> Some (items_of c) = Some key ->
                             Forall (fun x => (0 <= byte_of x <= 255)%Z) key).
  { intros c Hc [= <-]. destruct (isByteArray_items _ Hc) as [_ Hbytes].
    apply Forall_impl with (2 := Hbytes). intros x Hx.
    destruct (is_byte_range _ Hx) as (n & _ & _ & Hrange). exact Hrange. }
  unfold extractKey.
  destruct (isByteArray data) eqn:H0; [apply Hitems; exact H0|].
  destruct (truthy data && match data with VObject _ | VArray _ => true | _ => false end);
    [|discriminate].
  destruct (isByteArray (member data "secretKey")) eqn:H1; [apply Hitems; exact H1|].
  destruct (isByteArray (member data "privateKey")) eqn:H2; [apply Hitems; exact H2|].
  destruct (isByteArray (member data "keypair")) eqn:H3; [apply Hitems; exact H3|].
  discriminate.
Qed.

(** X13. [extractKey] returns an array only if it is an array of integers
    between 0 and 255, and it is then the first byte array among the
    value itself and its [secretKey], [privateKey] and [keypair]; it
    returns [null] exactly when none of the four is a byte array. *)
Theorem X13_extractKey_sound (data : value) :
  (forall key,
     extractKey data = Some key ->
     Forall (fun x => exists n, x = VNumber n /\ integer_value n = Some (byte_of x)
                                /\ (0 <= byte_of x <= 255)%Z) key
     /\ exists before c after,
          candidates data = before ++ c :: after
          /\ c = VArray key
          /\ isByteArray c = true
          /\ Forall (fun b => isByteArray b = false) before)
  /\ (extractKey data = None <-> forall c, In c (candidates data) -> isByteArray c = false).
Proof.
  unfold extractKey, candidates.
  destruct (isByteArray data) eqn:H0.
  { split.
    - intros key [= <-]. destruct (isByteArray_items _ H0) as [Hdata Hbytes]. split.
      + apply Forall_impl with (2 := Hbytes). intros x. apply is_byte_range.
      + exists [], data. eexists. split; [reflexivity|].
        repeat split; try assumption. constructor.
    - split; [discriminate|]. intros Hnone. rewrite (Hnone data) in H0; [discriminate|].
      left. reflexivity. }
  destruct (truthy data && match data with VObject _ | VArray _ => true | _ => false end)
    eqn:Hobject.
  2:{ split; [discriminate|]. split; [|reflexivity]. intros _.
      apply candidates_of_scalar; assumption. }
  destruct (isByteArray (member data "secretKey")) eqn:H1.
  { split.
    - intros key [= <-]. destruct (isByteArray_items _ H1) as [Hc Hbytes]. split.
      + apply Forall_impl with (2 := Hbytes). intros x. apply is_byte_range.
      + exists [data], (member data "secretKey"). eexists. split; [reflexivity|].
        repeat split; try assumption. repeat constructor. exact H0.
    - split; [discriminate|]. intros Hnone.
      rewrite (Hnone (member data "secretKey")) in H1; [discriminate|]. cbn. auto. }
  destruct (isByteArray (member data "privateKey")) eqn:H2.
  { split.
    - intros key [= <-]. destruct (isByteArray_items _ H2) as [Hc Hbytes]. split.
      + apply Forall_impl with (2 := Hbytes). intros x. apply is_byte_range.
      + exists [data; member data "secretKey"], (member data "privateKey"). eexists.
        split; [reflexivity|]. repeat split; try assumption. repeat constructor; assumption.
    - split; [discriminate|]. intros Hnone.
      rewrite (Hnone (member data "privateKey")) in H2; [discriminate|]. cbn. auto. }
  destruct (isByteArray (member data "keypair")) eqn:H3.
  { split.
    - intros key [= <-]. destruct (isByteArray_items _ H3) as [Hc Hbytes]. split.
      + apply Forall_impl with (2 := Hbytes). intros x. apply is_byte_range.
      + exists [data; member data "secretKey"; member data "privateKey"],
          (member data "keypair"). eexists.
        split; [reflexivity|]. repeat split; try assumption. repeat constructor; assumption.
    - split; [discriminate|]. intros Hnone.
      rewrite (Hnone (member data "keypair")) in H3; [discriminate|]. cbn. auto. }
  split; [discriminate|]. split; [|reflexivity]. intros _ c Hin.
  cbn in Hin. repeat (destruct Hin as [<-|Hin]; [assumption|]). contradiction.
Qed.

(** X14. The script prints on standard output only the encoding of a key
    found in the file, whose bytes all lie between 0 and 255, and then
    ends without calling [process.exit]; a missing or empty argument, a
    file that cannot be read or parsed, a file without a key and a failed
    import of [bs58] all end with exit status 1, a message on standard
    error and nothing on standard output.  An empty array counts as a key:
    its (empty) encoding is printed. *)
Theorem X14_script_outcome (bs58 : outcome (list Z -> string)) (filePath : option string)
  (read_json : string -> outcome value) :
  let r := keypair_to_base58 bs58 filePath read_json in
  ((exit_status r = Some 1 /\ stdout r = [] /\ stderr r <> [])
   \/ (exit_status r = None /\ stderr r = []
       /\ exists path json key encode,
            filePath = Some path /\ path <> EmptyString
            /\ read_json path = Returned json
            /\ extractKey json = Some key
            /\ bs58 = Returned encode
            /\ stdout r = [encode (map byte_of key)]
            /\ Forall (fun z => (0 <= z <= 255)%Z) (map byte_of key)))
  /\ (forall path encode,
        filePath = Some path -> path <> EmptyString ->
        read_json path = Returned (VArray []) ->
        bs58 = Returned encode ->
        stdout r = [encode []] /\ exit_status r = None).
Proof.
  intros r. unfold r, keypair_to_base58. split.
  - destruct filePath as [path|]; [|left; repeat split; discriminate].
    destruct (String.eqb_spec path EmptyString) as [->|Hpath];
      [left; repeat split; discriminate|].
    destruct (read_json path) as [json|e] eqn:Hread; [|left; repeat split; discriminate].
    destruct (extractKey json) as [key|] eqn:Hkey; [|left; repeat split; discriminate].
    destruct bs58 as [encode|e]; [|left; repeat split; discriminate].
    right. cbn. repeat split. exists path, json, key, encode.
    repeat split; try assumption.
    apply Forall_map. exact (extractKey_bytes _ Hkey).
  - intros path encode -> Hpath Hread ->. apply String.eqb_neq in Hpath.
    rewrite Hpath, Hread. split; reflexivity.
Qed.

(** A frame that starts no renewal is handled in one step: at most one log
    line, whatever the promises would settle to. *)
Lemma quiet_frame {platform : Platform} (cfg : Config) (renewUrl : string) (buf : frame) :
  is_trigger buf = false ->
  exists line outcome,
    (outcome = Completed tt
     \/ (outcome = Unspecified
         /\ classify (safeJsonParse buf) = Some Transaction /\ TX_LOG_MODE cfg = summary))
    /\ forall w tok,
         run w (onMessage cfg renewUrl buf) tok
         = {| trace := match line with
                       | Some (level, message, m) => [Logged level "client" message m]
                       | None => []
                       end;
              final_token := tok; result := outcome |}.
Proof.
  intros Hother. unfold is_trigger in Hother.
  rewrite onMessage_branch.
  destruct (classify (safeJsonParse buf)) as [[]|]; cbn [branch];
    unfold onStatus, onTransaction, onAccount, onSlot, onTicker, onLeaderboard,
      onX402Event, onIgnored;
    try rewrite Hother;
    try (eexists (Some (_, _, _)), (Completed tt); split; [left; reflexivity|];
         intros w tok; reflexivity).
  destruct (TX_LOG_MODE cfg) eqn:Hmode;
    [destruct (isEnhancedTransactionEvent (safeJsonParse buf));
     [destruct (EnhancedTransactionEvent.decode (safeJsonParse buf))
     |destruct (RawTransactionEvent.decode (safeJsonParse buf))]|];
    first [ eexists (Some (_, _, _)), (Completed tt); split; [left; reflexivity|];
            intros w tok; reflexivity
          | exists None, Unspecified; split; [right; repeat split; reflexivity|];
            intros w tok; reflexivity ].
Qed.

(** X15. A frame other than a [renewal_reminder] or [payment_required]
    lifecycle event is handled without any input or output besides one log
    line: nothing is sent, nothing is requested or awaited, [currentToken]
    is neither assigned nor changed, the result does not depend on how any
    promise would settle, and the promise of the handler does not reject
    (a transaction payload outside the declared types, in summary mode, is
    left unspecified); in the event loop no task is added. *)
Theorem X15_other_frames_quiet {platform : Platform} (cfg : Config) (renewUrl : string)
  (buf : frame) :
  is_trigger buf = false ->
  forall (w : world) (tok : string),
    let r := run w (onMessage cfg renewUrl buf) tok in
    sent (trace r) = []
    /\ requests (trace r) = []
    /\ assignments (trace r) = []
    /\ List.length (trace r) <= 1
    /\ final_token r = tok
    /\ (result r = Completed tt
        \/ (result r = Unspecified
            /\ classify (safeJsonParse buf) = Some Transaction
            /\ TX_LOG_MODE cfg = summary))
    /\ (forall w', run w' (onMessage cfg renewUrl buf) tok = r)
    /\ (forall st,
          let st' := react cfg renewUrl st (Message buf) in
          tasks st' = tasks st /\ current_token st' = current_token st).
Proof.
  intros Hother w tok r.
  destruct (quiet_frame cfg renewUrl buf Hother) as (line & outcome & Hout & Hrun).
  assert (Hr : r = {| trace := match line with
                               | Some (level, message, m) => [Logged level "client" message m]
                               | None => []
                               end;
                      final_token := tok; result := outcome |}) by apply Hrun.
  rewrite Hr. cbn [trace final_token result].
  repeat split.
  - destruct line as [[[level message] m]|]; reflexivity.
  - destruct line as [[[level message] m]|]; reflexivity.
  - destruct line as [[[level message] m]|]; reflexivity.
  - destruct line as [[[level message] m]|]; cbn; lia.
  - exact Hout.
  - intros w'. apply Hrun.
  - apply (other_frames cfg renewUrl buf Hother).
  - clear Hr Hrun Hout. unfold is_trigger in Hother. cbn [react].
    rewrite onMessage_branch.
    destruct (classify (safeJsonParse buf)) as [[]|]; cbn [branch];
      unfold onStatus, onTransaction, onAccount, onSlot, onTicker, onLeaderboard,
        onX402Event, onIgnored;
      try rewrite Hother; try reflexivity.
    destruct (TX_LOG_MODE cfg);
      [destruct (isEnhancedTransactionEvent (safeJsonParse buf));
       [destruct (EnhancedTransactionEvent.decode (safeJsonParse buf))
       |destruct (RawTransactionEvent.decode (safeJsonParse buf))]|]; reflexivity.
Qed.

Lemma X15_other_frames_quiet_witness :
  is_trigger (lifecycle "hello") = false
  /\ sent (trace (run world_500
             (@onMessage sample_platform (sample_cfg http summary) sample_renewUrl
                (lifecycle "hello")) "tok1")) = [].
Proof.
  split; [reflexivity|].
  apply (@X15_other_frames_quiet sample_platform (sample_cfg http summary) sample_renewUrl
           (lifecycle "hello") eq_refl world_500 "tok1").
Defined.


(** A procedure whose promises settle before anything else happens leaves
    in the loop what it leaves when run alone. *)
Lemma alone_in_loop {platform : Platform} (cfg : Config) (renewUrl : string) (w : world)
  (p : proc unit) :
  forall st,
    tasks st = [] ->
    let r := run w p (current_token st) in
    let st' := fold_left (react cfg renewUrl)
                 (settled_in_turn w (List.length (requests (trace r))))
                 (drop_promise (advance p st)) in
    tasks st' = []
    /\ current_token st' = final_token r
    /\ history st' = history st ++ trace r ++ dropped (result r).
Proof.
  induction p as [a|e| |level scope message m k IH|data k IH|k IH|t k IH|op k IH];
    intros st Htasks; cbv zeta in *; unfold requests, settled_in_turn in *.
  - destruct a. cbn. rewrite app_nil_r. auto.
  - cbn. auto.
  - cbn. auto.
  - specialize (IH (note (Logged level scope message m) st) Htasks).
    cbn [run advance emit trace final_token result requests flat_map app] in *.
    cbn [note current_token history] in IH.
    destruct IH as (H1 & H2 & H3). repeat split; try assumption.
    rewrite H3, <- app_assoc. reflexivity.
  - specialize (IH (note (Sent data) st) Htasks).
    cbn [run advance emit trace final_token result requests flat_map app] in *.
    cbn [note current_token history] in IH.
    destruct IH as (H1 & H2 & H3). repeat split; try assumption.
    rewrite H3, <- app_assoc. reflexivity.
  - cbn [run advance]. apply (IH (current_token st) st Htasks).
  - specialize (IH {| current_token := t; tasks := tasks st;
                      history := history st ++ [Assigned t] |} Htasks).
    cbn [run advance emit trace final_token result requests flat_map app] in *.
    cbn [current_token history] in IH.
    destruct IH as (H1 & H2 & H3). repeat split; try assumption.
    rewrite H3, <- app_assoc. reflexivity.
  - specialize (IH (w op) {| current_token := current_token st; tasks := [];
                             history := history st ++ [Awaited op] |} eq_refl).
    cbn [run advance emit trace final_token result requests flat_map app List.length
         settled_in_turn repeat fold_left drop_promise fst snd react tasks] in *.
    rewrite Htasks. cbn [app nth_error remove_nth awaiting resume current_token history].
    cbn [current_token history] in IH.
    destruct IH as (H1 & H2 & H3). repeat split; try assumption.
    rewrite H3, <- app_assoc. reflexivity.
Qed.



(** X18. With direct renewal, once a renewal has succeeded the client
    renews the renewed token: after the trigger, the response and its body
    have been handled, [currentToken] is the token of the response, one
    [renew_token] message carrying it has been sent, no task is pending,
    and the next [renewal_reminder] or [payment_required] event POSTs
    [{ token: newToken }] to the renewal URL. *)
Theorem X18_renewed_token_is_renewed {platform : Platform} (cfg : Config)
  (renewUrl : string) (w : world) (buf next : frame) (st : loop)
  (resp : Response) (data : value) (newToken : string) :
  RENEW_METHOD cfg = http ->
  is_trigger buf = true ->
  is_trigger next = true ->
  tasks st = [] ->
  w (FetchWithPayment renewUrl (renewal_post (current_token st))) = Returned resp ->
  ok resp = true ->
  w (ResponseJson resp) = Returned data ->
  isRenewResponse data = true ->
  get data "token" = VString newToken ->
  let st' := fold_left (react cfg renewUrl) (undisturbed w buf 2) st in
  current_token st' = newToken
  /\ tasks st' = []
  /\ sent (history st')
     = sent (history st)
       ++ [VObject [("op", VString "renew_token"); ("token", VString newToken)]]
  /\ assignments (history st') = assignments (history st) ++ [newToken]
  /\ exists t,
       tasks (react cfg renewUrl st' (Message next)) = [t]
       /\ awaiting t = FetchWithPayment renewUrl (renewal_post newToken).
Proof.
  intros Hmethod Htrigger Hnext Htasks Hfetch Hok Hjson Hshape Htoken st'.
  unfold renewal_post in Hfetch.
  assert (Hrun : run w (onMessage cfg renewUrl buf) (current_token st)
                 = {| trace :=
                        [ Logged info "client" "ws event"
                            (Some (VObject [("op", get (safeJsonParse buf) "op")]));
                          Logged info "client" "requesting http renew"
                            (Some (VObject [("url", VString renewUrl)]));
                          Awaited (FetchWithPayment renewUrl
                                     (renewal_post (current_token st)));
                          Awaited (ResponseJson resp);
                          Logged info "client" "http renew ok"
                            (Some (VObject [("expiresAt", get data "expiresAt");
                                            ("sliceSeconds", get data "sliceSeconds")]));
                          Assigned newToken;
                          Logged info "client" "sending renew token" None;
                          Sent (VObject [("op", VString "renew_token");
                                         ("token", VString newToken)]) ];
                      final_token := newToken;
                      result := Completed tt |}).
  { rewrite (run_trigger _ _ _ _ _ Htrigger), run_renew.
    unfold attempt. rewrite Hmethod. renewing.
    given Hfetch. given Hok. given Hjson. given Hshape. rewrite Htoken.
    reflexivity. }
  destruct (alone_in_loop cfg renewUrl w (onMessage cfg renewUrl buf) st Htasks)
    as (Hleft & Hcurrent & Hhistory).
  rewrite Hrun in Hleft, Hcurrent, Hhistory.
  cbn [trace final_token result requests flat_map app List.length dropped]
    in Hleft, Hcurrent, Hhistory.
  assert (Hst : st' = fold_left (react cfg renewUrl) (settled_in_turn w 2)
                       (drop_promise (advance (onMessage cfg renewUrl buf) st)))
    by reflexivity.
  rewrite <- Hst in Hleft, Hcurrent, Hhistory. clearbody st'.
  repeat split; try assumption.
  - rewrite Hhistory, sent_app. reflexivity.
  - rewrite Hhistory, assignments_app. reflexivity.
  - destruct (trigger_suspends cfg renewUrl st' next Hnext) as (t & Hadded & Hawaits).
    exists t. rewrite Hadded, Hleft, Hawaits, Hmethod, Hcurrent. split; reflexivity.
Qed.

Lemma X18_renewed_token_is_renewed_witness :
  is_trigger (lifecycle "renewal_reminder") = true
  /\ is_trigger (lifecycle "payment_required") = true
  /\ isRenewResponse (renewed_body "tok2") = true
  /\ current_token
       (fold_left (@react sample_platform (sample_cfg http summary) sample_renewUrl)
          (undisturbed world_renewed (lifecycle "renewal_reminder") 2) (start "tok1"))
     = "tok2".
Proof.
  split; [reflexivity|]. split; [reflexivity|]. split; [reflexivity|].
  apply (@X18_renewed_token_is_renewed sample_platform (sample_cfg http summary)
           sample_renewUrl world_renewed (lifecycle "renewal_reminder")
           (lifecycle "payment_required") (start "tok1") (response 200)
           (renewed_body "tok2") "tok2"); reflexivity.
Defined.
